(** * dockerd as a Windows service: cmd/dockerd/service_windows.go

    A shallow embedding of the service glue of the Docker daemon on
    Windows and the properties of it that its specification states:
    - the event-log hook ([etwHook.Fire]) that turns log records into
      host event records,
    - the panic file ([initPanicFile], [removePanicFile]) that captures
      the runtime's fault output,
    - the entry point [initService] and the handshake between the daemon
      and the service control handler ([started], [stopped], [Execute])
      over the two channels of [handler]. *)

From Stdlib Require Import ZArith String Ascii List Lia Bool.
From stdpp Require Import base option list gmap strings.

Local Open Scope Z_scope.

(** Go's [error] interface: [None] is [nil], [Some msg] an error value. *)
Definition error : Type := string.

(** Wrap-around of Go's unsigned integer types. *)
Definition wrap16 (z : Z) : Z := z mod 2 ^ 16.
Definition wrap32 (z : Z) : Z := z mod 2 ^ 32.

(** ** Strings *)

Definition newline : string := String (ascii_of_nat 10) EmptyString.

(** [s[:len(s)-1]] where [s] is not empty. *)
Definition dropLastByte (s : string) : string :=
  substring 0 (String.length s - 1) s.

(** * The event-log hook *)

Module EventLog.

(** logrus levels: [type Level uint8] with [PanicLevel = iota]. *)
Definition Level : Type := N.
Definition PanicLevel : Level := 0%N.
Definition FatalLevel : Level := 1%N.
Definition ErrorLevel : Level := 2%N.
Definition WarnLevel : Level := 3%N.
Definition InfoLevel : Level := 4%N.
Definition DebugLevel : Level := 5%N.

(** Event types of golang.org/x/sys/windows. *)
Definition EVENTLOG_ERROR_TYPE : Z := 1.
Definition EVENTLOG_WARNING_TYPE : Z := 2.
Definition EVENTLOG_INFORMATION_TYPE : Z := 4.

(** The constants of service_windows.go, lines 35-45. *)
Definition eventInfo : Z := 1.
Definition eventWarn : Z := 1.
Definition eventError : Z := 1.
Definition eventDebug : Z := 2.
Definition eventPanic : Z := 3.
Definition eventFatal : Z := 4.
Definition eventExtraOffset : Z := 10.

Definition EINVAL : error := "invalid argument".

(** [syscall.UTF16PtrFromString]: fails with EINVAL when the string has
    a NUL byte; the pointer to the encoded string is kept as the string. *)
Definition hasNul (s : string) : bool :=
  existsb (fun c => Ascii.eqb c Ascii.zero) (list_ascii_of_string s).

Definition UTF16PtrFromString (s : string) : string + error :=
  if hasNul s then inr EINVAL else inl s.

(** What [Fire] does to the outside: a line on [os.Stderr], or a call of
    [windows.ReportEvent] with the arguments in the order of the call. *)
Record EventRecord := {
  evHandle : Z;
  evType : Z;
  evCategory : Z;
  evID : Z;
  evUserSid : Z;
  evNumStrings : Z;
  evDataSize : Z;
  evStrings : list (option string)   (* ss [2]*uint16, nil as None *)
}.

Inductive effect :=
| WriteStderr (line : string)
| ReportEvent (r : EventRecord).

Section Hook.

(** The values of [logrus.Fields] and [fmt.Fprint] on them. *)
Context {Value : Type} (Sprint : Value -> string).
(** What the host answers to [windows.ReportEvent]. *)
Context (hostReportEvent : EventRecord -> option error).

(** [e.Data] is a Go map: [Data] lists its entries in the order in which
    [range] visits them. *)
Record Entry := {
  EntryLevel : Level;
  Message : string;
  Data : list (string * Value)
}.

(** [etwHook]: [log] is nil in an interactive session. *)
Record etwHook := { log : option Z }.

Definition Levels : list Level :=
  [PanicLevel; FatalLevel; ErrorLevel; WarnLevel; InfoLevel; DebugLevel].

(** The [switch e.Level] of lines 73-94: [(etype, eid)], or [None] at
    [default]. *)
Definition levelEvent (l : Level) : option (Z * Z) :=
  if (l =? PanicLevel)%N then Some (EVENTLOG_ERROR_TYPE, eventPanic)
  else if (l =? FatalLevel)%N then Some (EVENTLOG_ERROR_TYPE, eventFatal)
  else if (l =? ErrorLevel)%N then Some (EVENTLOG_ERROR_TYPE, eventError)
  else if (l =? WarnLevel)%N then Some (EVENTLOG_WARNING_TYPE, eventWarn)
  else if (l =? InfoLevel)%N then Some (EVENTLOG_INFORMATION_TYPE, eventInfo)
  else if (l =? DebugLevel)%N then Some (EVENTLOG_INFORMATION_TYPE, eventDebug)
  else None.

(** One turn of the loop of lines 100-105 on the buffer [fs]. *)
Definition writeField (fs : string) (kv : string * Value) : string :=
  ((fs +:+ kv.1) +:+ "=") +:+ Sprint kv.2 +:+ " ".

Definition writeFields (data : list (string * Value)) : string :=
  fold_left writeField data "".

(** Lines 97-109: the second string and the identifier. *)
Definition extend (data : list (string * Value)) (eid : Z) : string * Z :=
  if (0 <? length data)%nat
  then (dropLastByte (writeFields data), wrap32 (eid + eventExtraOffset))
  else ("", eid).

Definition Fire (h : etwHook) (e : Entry) : option error * list effect :=
  match levelEvent (EntryLevel e) with
  | None => (Some "unknown level", [])
  | Some (etype, eid) =>
    let '(exts, eid) := extend (Data e) eid in
    match log h with
    | None =>
      (None, [WriteStderr (Message e +:+ " [" +:+ exts +:+ "]" +:+ newline)])
    | Some handle =>
      match UTF16PtrFromString (Message e) with
      | inr err => (Some err, [])
      | inl s0 =>
        let count := 1 in
        if String.eqb exts "" then
          let r := {| evHandle := handle; evType := etype; evCategory := 0;
                      evID := eid; evUserSid := 0; evNumStrings := count;
                      evDataSize := 0; evStrings := [Some s0; None] |} in
          (hostReportEvent r, [ReportEvent r])
        else
          match UTF16PtrFromString exts with
          | inr err => (Some err, [])
          | inl s1 =>
            let count := wrap16 (count + 1) in
            let r := {| evHandle := handle; evType := etype; evCategory := 0;
                        evID := eid; evUserSid := 0; evNumStrings := count;
                        evDataSize := 0; evStrings := [Some s0; Some s1] |} in
            (hostReportEvent r, [ReportEvent r])
          end
      end
    end
  end.

(** The strings that a record submits: the first [evNumStrings] of
    [evStrings]. *)
Definition submitted (r : EventRecord) : list (option string) :=
  take (Z.to_nat (evNumStrings r)) (evStrings r).

(** [key=value] of one field, and the fields joined by single spaces. *)
Definition showField (kv : string * Value) : string :=
  (kv.1 +:+ "=") +:+ Sprint kv.2.

Definition joinFields (data : list (string * Value)) : string :=
  String.concat " " (map showField data).

(** The second string, the identifier and the strings of the record
    that an entry of a known level with the fields [data] leads to. *)
Definition extension (data : list (string * Value)) : string :=
  match data with [] => "" | _ => joinFields data end.
Definition identifier (data : list (string * Value)) (eid : Z) : Z :=
  match data with [] => eid | _ => eid + eventExtraOffset end.
Definition strings (msg : string) (data : list (string * Value))
  : list (option string) :=
  match data with
  | [] => [Some msg]
  | _ => [Some msg; Some (joinFields data)]
  end.

End Hook.

(** The identifier alone of a level. *)
Definition levelID (l : Level) : option Z := snd <$> levelEvent l.

(** An entry with one field, its values being strings. *)
Definition entry_a1 : @Entry string :=
  {| EntryLevel := InfoLevel; Message := "m"; Data := [("a", "1")] |}.

End EventLog.

(** * The host: files, handles and package variables *)

Module OS.

(** [os.File]: the handle and the name the file was opened with. *)
Record File := { Fd : Z; Name : string }.

(** Flags of package syscall on Windows. *)
Definition O_WRONLY : Z := 0x1.
Definition O_RDWR : Z := 0x2.
Definition O_CREATE : Z := 0x40.
Definition O_TRUNC : Z := 0x200.
Definition O_APPEND : Z := 0x400.
Definition STD_ERROR_HANDLE : Z := -12.
Definition InvalidHandle : Z := 2 ^ 64 - 1.

Definition ErrInvalid : error := "invalid argument".
Definition ErrNotExist : error := "file does not exist".
Definition ErrClosed : error := "file already closed".
Definition errSuccess : error := "The operation completed successfully.".

(** The calls that leave the process. *)
Inductive call :=
| COpenFile (path : string) (flag perm : Z)
| CStat (fd : Z)
| CClose (fd : Z)
| CRename (oldpath newpath : string)
| CRemove (path : string)
| CGetStdHandle (sh : Z)
| CSetStdHandle (sh handle : Z)
| CLookPath (file : string)
| CAbs (path : string)
| CMgrConnect
| CMgrDisconnect (m : Z)
| CCreateService (m : Z) (name exepath : string) (args : list string)
| COpenService (m : Z) (name : string)
| CServiceClose (s : Z)
| CServiceDelete (s : Z)
| CEventlogInstall (src msgFile : string) (useExpandKey : bool) (eventsSupported : Z)
| CEventlogRemove (src : string).

(** The state that the functions of the package work on. The host may
    refuse any call: [faults] holds, call by call, the error it answers
    with ([None]: the call goes through). *)
Record world := {
  files : gmap string string;     (* the content of each file, by path *)
  handles : gmap Z string;        (* open handles and the path of each *)
  nextFd : Z;
  stdErr : Z;                     (* the process's STD_ERROR_HANDLE *)
  faults : list (option error);
  calls : list call;              (* the calls made, oldest first *)
  (* package variables *)
  oldStderr : Z;
  panicFile : option File;
  (* daemonCli.Config.Root *)
  ConfigRoot : string;
  (* os.Args *)
  Args : list string
}.

Definition M (A : Type) : Type := world -> A * world.

#[global] Instance M_ret : MRet M := fun A a w => (a, w).
#[global] Instance M_bind : MBind M :=
  fun A B f m w => let '(a, w') := m w in f a w'.

Definition gets {A} (f : world -> A) : M A := fun w => (f w, w).
Definition modify (f : world -> world) : M unit := fun w => (tt, f w).

Definition set_files (v : gmap string string) (w : world) : world :=
  {| files := v; handles := handles w; nextFd := nextFd w; stdErr := stdErr w;
     faults := faults w; calls := calls w; oldStderr := oldStderr w;
     panicFile := panicFile w; ConfigRoot := ConfigRoot w;
     Args := Args w |}.
Definition set_handles (v : gmap Z string) (w : world) : world :=
  {| files := files w; handles := v; nextFd := nextFd w; stdErr := stdErr w;
     faults := faults w; calls := calls w; oldStderr := oldStderr w;
     panicFile := panicFile w; ConfigRoot := ConfigRoot w;
     Args := Args w |}.
Definition set_nextFd (v : Z) (w : world) : world :=
  {| files := files w; handles := handles w; nextFd := v; stdErr := stdErr w;
     faults := faults w; calls := calls w; oldStderr := oldStderr w;
     panicFile := panicFile w; ConfigRoot := ConfigRoot w;
     Args := Args w |}.
Definition set_stdErr (v : Z) (w : world) : world :=
  {| files := files w; handles := handles w; nextFd := nextFd w; stdErr := v;
     faults := faults w; calls := calls w; oldStderr := oldStderr w;
     panicFile := panicFile w; ConfigRoot := ConfigRoot w;
     Args := Args w |}.
Definition set_faults (v : list (option error)) (w : world) : world :=
  {| files := files w; handles := handles w; nextFd := nextFd w; stdErr := stdErr w;
     faults := v; calls := calls w; oldStderr := oldStderr w;
     panicFile := panicFile w; ConfigRoot := ConfigRoot w;
     Args := Args w |}.
Definition set_calls (v : list call) (w : world) : world :=
  {| files := files w; handles := handles w; nextFd := nextFd w; stdErr := stdErr w;
     faults := faults w; calls := v; oldStderr := oldStderr w;
     panicFile := panicFile w; ConfigRoot := ConfigRoot w;
     Args := Args w |}.
Definition set_oldStderr (v : Z) (w : world) : world :=
  {| files := files w; handles := handles w; nextFd := nextFd w; stdErr := stdErr w;
     faults := faults w; calls := calls w; oldStderr := v;
     panicFile := panicFile w; ConfigRoot := ConfigRoot w;
     Args := Args w |}.
Definition set_panicFile (v : option File) (w : world) : world :=
  {| files := files w; handles := handles w; nextFd := nextFd w; stdErr := stdErr w;
     faults := faults w; calls := calls w; oldStderr := oldStderr w;
     panicFile := v; ConfigRoot := ConfigRoot w;
     Args := Args w |}.

(** A call to the host: it is logged; the host's fault, if any, is its
    result and nothing else happens; otherwise [ok] runs. *)
Definition hostcall {A} (c : call) (ok : M (A + error)) : M (A + error) :=
  fun w =>
    let w := set_calls (calls w ++ [c]) w in
    match faults w with
    | Some e :: fs => (inr e, set_faults fs w)
    | _ => ok (set_faults (tail (faults w)) w)
    end.

Definition hasFlag (flag bit : Z) : bool := negb (Z.land flag bit =? 0).

(** [os.OpenFile]: opens the file at [path], creating it with O_CREATE
    and emptying it with O_TRUNC. *)
Definition OpenFile (path : string) (flag perm : Z) : M (File + error) :=
  hostcall (COpenFile path flag perm) (fun w =>
    let fd := nextFd w in
    let opened := set_nextFd (fd + 1) (set_handles (<[fd := path]> (handles w)) w) in
    match files w !! path with
    | Some c =>
      let c := if hasFlag flag O_TRUNC then "" else c in
      (inl {| Fd := fd; Name := path |}, set_files (<[path := c]> (files w)) opened)
    | None =>
      if hasFlag flag O_CREATE
      then (inl {| Fd := fd; Name := path |}, set_files (<[path := ""]> (files w)) opened)
      else (inr ErrNotExist, w)
    end).

(** [os.Create]. *)
Definition Create (path : string) : M (File + error) :=
  OpenFile path (Z.lor O_RDWR (Z.lor O_CREATE O_TRUNC)) 0x1b6.

(** [File.Stat], of which only [Size()] is used. *)
Definition Stat (f : option File) : M (Z + error) :=
  match f with
  | None => mret (inr ErrInvalid)
  | Some f =>
    hostcall (CStat (Fd f)) (fun w =>
      match handles w !! Fd f with
      | None => (inr ErrClosed, w)
      | Some path =>
        match files w !! path with
        | None => (inr ErrNotExist, w)
        | Some c => (inl (Z.of_nat (String.length c)), w)
        end
      end)
  end.

(** [File.Close]. *)
Definition Close (f : option File) : M (unit + error) :=
  match f with
  | None => mret (inr ErrInvalid)
  | Some f =>
    hostcall (CClose (Fd f)) (fun w =>
      match handles w !! Fd f with
      | None => (inr ErrClosed, w)
      | Some _ => (inl tt, set_handles (delete (Fd f) (handles w)) w)
      end)
  end.

(** [os.Rename]: replaces [newpath] if it exists. *)
Definition Rename (oldpath newpath : string) : M (unit + error) :=
  hostcall (CRename oldpath newpath) (fun w =>
    match files w !! oldpath with
    | None => (inr ErrNotExist, w)
    | Some c => (inl tt, set_files (<[newpath := c]> (delete oldpath (files w))) w)
    end).

(** [os.Remove]. *)
Definition Remove (path : string) : M (unit + error) :=
  hostcall (CRemove path) (fun w =>
    match files w !! path with
    | None => (inr ErrNotExist, w)
    | Some _ => (inl tt, set_files (delete path (files w)) w)
    end).

(** [syscall.GetStdHandle]. *)
Definition GetStdHandle (sh : Z) : M (Z + error) :=
  hostcall (CGetStdHandle sh) (fun w => (inl (stdErr w), w)).

(** [setStdHandle.Call]: [(r, err)] of the system call, [r = 0] on
    failure; [err] is never nil, it is errno 0 on success. *)
Definition setStdHandleCall (sh handle : Z) : M (Z * error) :=
  r ← hostcall (CSetStdHandle sh handle) (fun w => (inl tt, set_stdErr handle w));
  match r with
  | inl _ => mret (1, errSuccess)
  | inr e => mret (0, e)
  end.

(** [w'] comes after [w] by calls that leave the standard error handle
    and the package variables alone. *)
Definition quietly (w w' : world) : Prop :=
  stdErr w' = stdErr w /\ panicFile w' = panicFile w /\
  exists l, calls w' = calls w ++ l.

(** [filepath.Join] of a directory and a file name that are clean already
    (no trailing separator, no dot component, no forward slash): Join
    then puts the separator between the two, and gives the name alone
    for an empty directory. The cleaning of other paths is not
    modelled. *)
Definition filepathJoin (dir name : string) : string :=
  if String.eqb dir "" then name else dir +:+ "\" +:+ name.

(** [File.Fd], which is InvalidHandle on a nil file. *)
Definition fdOf (f : option File) : Z :=
  match f with Some f => Fd f | None => InvalidHandle end.

End OS.

(** * The panic file *)

Module PanicFile.
Import OS.

(** Lines 341-357: point STD_ERROR_HANDLE to the panic file, remembering
    the old handle. *)
Definition redirectStderr : M (option error) :=
  let sh := STD_ERROR_HANDLE in
  h ← GetStdHandle sh;
  match h with
  | inr err => mret (Some err)
  | inl h =>
    modify (set_oldStderr h);;
    pf ← gets panicFile;
    '(r, err) ← setStdHandleCall sh (fdOf pf);
    if r =? 0 then mret (Some err) else mret None
  end.

(** Lines 318-358. *)
Definition initPanicFile (path : string) : M (option error) :=
  r ← OpenFile path (Z.lor O_CREATE (Z.lor O_WRONLY O_APPEND)) 0;
  match r with
  | inr err => modify (set_panicFile None);; mret (Some err)
  | inl f =>
    modify (set_panicFile (Some f));;
    st ← Stat (Some f);
    match st with
    | inr err => mret (Some err)
    | inl size =>
      if 0 <? size then
        Close (Some f);;
        Rename path (path +:+ ".old");;
        r ← Create path;
        match r with
        | inr err => modify (set_panicFile None);; mret (Some err)
        | inl f => modify (set_panicFile (Some f));; redirectStderr
        end
      else redirectStderr
    end
  end.

(** Lines 360-369. *)
Definition removePanicFile : M unit :=
  pf ← gets panicFile;
  st ← Stat pf;
  match st, pf with
  | inl size, Some f =>
    if size =? 0 then
      let sh := STD_ERROR_HANDLE in
      old ← gets oldStderr;
      setStdHandleCall sh old;;
      Close (Some f);;
      Remove (Name f);;
      mret tt
    else mret tt
  | _, _ => mret tt
  end.

End PanicFile.

(** * The service *)

Module Service.
Import OS PanicFile.

(** ** Package svc *)

Inductive State :=
| Stopped | StartPending | StopPending | Running
| ContinuePending | PausePending | Paused.

(** [svc.Cmd] and [svc.Accepted] are uint32. *)
Definition Stop : Z := 1.
Definition Pause : Z := 2.
Definition Continue : Z := 3.
Definition Interrogate : Z := 4.
Definition Shutdown : Z := 5.
Definition SERVICE_CONTROL_PARAMCHANGE : Z := 6.

Definition AcceptStop : Z := 1.
Definition AcceptPauseAndContinue : Z := 2.
Definition AcceptShutdown : Z := 4.
Definition SERVICE_ACCEPT_PARAMCHANGE : Z := 8.

Record Status := { StatusState : State; Accepts : Z }.

Record ChangeRequest := { Cmd : Z; CurrentStatus : Status }.

(** ** Channels

    A Go channel of capacity [cap] with the values that wait in it. *)
Record chan (A : Type) := { cap : nat; buf : list A }.
Arguments cap {A} _.
Arguments buf {A} _.

(** [make(chan T, n)]; [make(chan T)] is [make_chan 0]. *)
Definition make_chan {A} (n : nat) : chan A := {| cap := n; buf := [] |}.

(** A send that does not wait: there is room in the buffer. *)
Definition send {A} (c : chan A) (a : A) : option (chan A) :=
  if (length (buf c) <? cap c)%nat
  then Some {| cap := cap c; buf := buf c ++ [a] |}
  else None.

(** A receive that does not wait: a value is in the buffer. *)
Definition recv {A} (c : chan A) : option (A * chan A) :=
  match buf c with
  | a :: rest => Some (a, {| cap := cap c; buf := rest |})
  | [] => None
  end.

Record handler := { tosvc : chan bool; fromsvc : chan (option error) }.

(** ** The flags and the host *)

Record flags := {
  flServiceName : string;
  flRegisterService : bool;
  flUnregisterService : bool;
  flRunService : bool
}.

(** What the packages svc, debug and eventlog answer. [runError]: [Run]
    fails before it calls the handler; [runResult]: what [Run] returns
    once [Execute] has returned. *)
Record host := {
  IsAnInteractiveSession : bool + error;
  eventlogOpen : Z + error;
  runError : option error;
  runResult : bool * Z -> option error
}.

(** The calls of the daemon body into this package. *)
Inductive daemonCall :=
| CallStarted
| CallStopped (err : option error).

(** What a goroutine does that the model only writes to the trace: calls
    without a result, and the calls and returns of the daemon body. *)
Inductive note :=
| AddHook (log : option Z)
| SetOutputDiscard
| SetService                          (* service = h *)
| Debugf (format : string) (args : list (option error))
| ReloadConfig                        (* daemonCli.reloadConfig() *)
| StopDaemon                          (* daemonCli.stop() *)
| HandlerReturned (ssec : bool) (errno : Z)   (* Run gets Execute's results *)
| BeginReturned (r : bool * option error)
| Calls (c : daemonCall)
| StartedReturned (err : option error)
| StoppedReturned.

(** ** Programs of one goroutine *)

Inductive prog (R : Type) : Type :=
| Ret (r : R)
| Sys (m : M (option error)) (k : option error -> prog R)
| Note (n : note) (k : prog R)
| MakeHandler (h : handler) (k : prog R)
| Go (child : prog unit) (k : prog R)
| SendTosvc (b : bool) (k : prog R)
| RecvTosvc (k : bool -> prog R)
| SendFromsvc (e : option error) (k : prog R)
| RecvFromsvc (k : option error -> prog R)
| SendStatus (st : Status) (k : prog R)
| Select (kt : bool -> prog R) (kr : ChangeRequest -> prog R)
| Loop (body : prog (option bool)) (k : bool -> prog R).
Arguments Ret {R} _.
Arguments Sys {R} _ _.
Arguments Note {R} _ _.
Arguments MakeHandler {R} _ _.
Arguments Go {R} _ _.
Arguments SendTosvc {R} _ _.
Arguments RecvTosvc {R} _.
Arguments SendFromsvc {R} _ _.
Arguments RecvFromsvc {R} _.
Arguments SendStatus {R} _ _.
Arguments Select {R} _ _.
Arguments Loop {R} _ _.

Fixpoint bind {A B} (p : prog A) (f : A -> prog B) : prog B :=
  match p with
  | Ret a => f a
  | Sys m k => Sys m (fun r => bind (k r) f)
  | Note n k => Note n (bind k f)
  | MakeHandler h k => MakeHandler h (bind k f)
  | Go child k => Go child (bind k f)
  | SendTosvc b k => SendTosvc b (bind k f)
  | RecvTosvc k => RecvTosvc (fun b => bind (k b) f)
  | SendFromsvc e k => SendFromsvc e (bind k f)
  | RecvFromsvc k => RecvFromsvc (fun e => bind (k e) f)
  | SendStatus st k => SendStatus st (bind k f)
  | Select kt kr => Select (fun b => bind (kt b) f) (fun c => bind (kr c) f)
  | Loop body k => Loop body (fun b => bind (k b) f)
  end.

#[global] Instance prog_ret : MRet prog := fun A a => Ret a.
#[global] Instance prog_bind : MBind prog := fun A B f p => bind p f.

Definition sys (m : M (option error)) : prog (option error) := Sys m Ret.
Definition sys_ (m : M unit) : prog unit :=
  Sys (m;; mret None) (fun _ => Ret tt).
Definition tell (n : note) : prog unit := Note n (Ret tt).
Definition sendTosvc (b : bool) : prog unit := SendTosvc b (Ret tt).
Definition recvTosvc : prog bool := RecvTosvc Ret.
Definition sendFromsvc (e : option error) : prog unit := SendFromsvc e (Ret tt).
Definition recvFromsvc : prog (option error) := RecvFromsvc Ret.
Definition sendStatus (st : Status) : prog unit := SendStatus st (Ret tt).
(** [for { ... }] left by [break] with a value. *)
Definition loop (body : prog (option bool)) : prog bool := Loop body Ret.



(** ** Registration (lines 139-204) *)

Definition fresh : M Z :=
  fd ← gets nextFd; modify (set_nextFd (fd + 1));; mret fd.

Definition getServicePath : M (string + error) :=
  arg0 ← gets (fun w => hd "" (Args w));
  p ← hostcall (CLookPath arg0) (mret (inl arg0));
  match p with
  | inr err => mret (inr err)
  | inl p => hostcall (CAbs p) (mret (inl p))
  end.

Definition keepArg (a : string) : bool :=
  negb (String.eqb a "--register-service") &&
  negb (String.eqb a "--unregister-service").

Definition registerService (name : string) : M (option error) :=
  p ← getServicePath;
  match p with
  | inr err => mret (Some err)
  | inl p =>
    m ← hostcall CMgrConnect (h ← fresh; mret (inl h));
    match m with
    | inr err => mret (Some err)
    | inl m =>
      osArgs ← gets Args;
      let args := "--run-service" :: filter (fun a => keepArg a = true) (tail osArgs) in
      s ← hostcall (CCreateService m name p args) (h ← fresh; mret (inl h));
      match s with
      | inr err =>
        hostcall (CMgrDisconnect m) (mret (inl tt));; mret (Some err)
      | inl s =>
        r ← hostcall (CEventlogInstall name p false 7) (mret (inl tt));
        hostcall (CServiceClose s) (mret (inl tt));;
        hostcall (CMgrDisconnect m) (mret (inl tt));;
        match r with
        | inr err => mret (Some err)
        | inl _ => mret None
        end
      end
    end
  end.

Definition unregisterService (name : string) : M (option error) :=
  m ← hostcall CMgrConnect (h ← fresh; mret (inl h));
  match m with
  | inr err => mret (Some err)
  | inl m =>
    s ← hostcall (COpenService m name) (h ← fresh; mret (inl h));
    match s with
    | inr err =>
      hostcall (CMgrDisconnect m) (mret (inl tt));; mret (Some err)
    | inl s =>
      hostcall (CEventlogRemove name) (mret (inl tt));;
      r ← hostcall (CServiceDelete s) (mret (inl tt));
      hostcall (CServiceClose s) (mret (inl tt));;
      hostcall (CMgrDisconnect m) (mret (inl tt));;
      match r with
      | inr err => mret (Some err)
      | inl _ => mret None
      end
    end
  end.

(** ** The handler (lines 262-316) *)

Definition started : prog (option error) :=
  err ← sys (root ← gets ConfigRoot;
             initPanicFile (filepathJoin root "panic.log"));
  match err with
  | Some e => mret (Some e)
  | None => sendTosvc false;; mret None
  end.

Definition isErr (err : option error) : bool :=
  match err with Some _ => true | None => false end.

Definition stopped (err : option error) : prog unit :=
  tell (Debugf "Stopping service: %v" [err]);;
  sendTosvc (isErr err);;
  _ ← recvFromsvc; mret tt.

(** The [switch c.Cmd] of lines 299-307. *)
Definition control (c : ChangeRequest) : prog unit :=
  if Cmd c =? SERVICE_CONTROL_PARAMCHANGE then tell ReloadConfig
  else if Cmd c =? Interrogate then sendStatus (CurrentStatus c)
  else if (Cmd c =? Stop) || (Cmd c =? Shutdown) then
    sendStatus {| StatusState := StopPending; Accepts := 0 |};;
    tell StopDaemon
  else mret tt.

Definition Execute : prog (bool * Z) :=
  sendStatus {| StatusState := StartPending; Accepts := 0 |};;
  sendFromsvc None;;
  failed ← recvTosvc;
  if failed : bool then
    tell (Debugf "Aborting service start due to failure during initializtion" []);;
    mret (true, 1)
  else
    sendStatus {| StatusState := Running;
                  Accepts := Z.lor (Z.lor AcceptStop AcceptShutdown)
                                   SERVICE_ACCEPT_PARAMCHANGE |};;
    tell (Debugf "Service running" []);;
    failed ← loop (Select (fun failed => Ret (Some failed))
                          (fun c => control c;; Ret None));
    sys_ removePanicFile;;
    if failed : bool then mret (true, 1) else mret (false, 0).

(** ** The entry point (lines 206-260) *)

(** [debug.Run] and [svc.Run] with the handler [h]: they call [Execute]
    and take its results. *)
Definition Run (hst : host) : prog (option error) :=
  match runError hst with
  | Some e => mret (Some e)
  | None =>
    r ← Execute;
    tell (HandlerReturned r.1 r.2);;
    mret (runResult hst r)
  end.

(** The goroutine of lines 244-252. *)
Definition serviceGoroutine (hst : host) : prog unit :=
  err ← Run hst; sendFromsvc err.

Definition initService (fl : flags) (hst : host) : prog (bool * option error) :=
  if flUnregisterService fl then
    if flRegisterService fl then
      mret (true, Some "--register-service and --unregister-service cannot be used together")
    else
      err ← sys (unregisterService (flServiceName fl)); mret (true, err)
  else if flRegisterService fl then
    err ← sys (registerService (flServiceName fl)); mret (true, err)
  else if negb (flRunService fl) then mret (false, None)
  else
    match IsAnInteractiveSession hst with
    | inr err => mret (false, Some err)
    | inl interactive =>
      let h := {| tosvc := make_chan 0; fromsvc := make_chan 0 |} in
      MakeHandler h (
        match (if negb interactive then
                 match eventlogOpen hst with
                 | inl l => inl (Some l)
                 | inr err => inr err
                 end
               else inl None) with
        | inr err => mret (false, Some err)
        | inl log =>
          tell (AddHook log);;
          tell SetOutputDiscard;;
          tell SetService;;
          Go (serviceGoroutine hst) (
            err ← recvFromsvc;
            match err with
            | Some e => mret (false, Some e)
            | None => mret (false, None)
            end)
        end)
    end.

End Service.

(** * The two goroutines and the host *)

Module System.
Import OS PanicFile Service.

(** Modelled from the spec: the daemon body, which is not in this file.
    After [initService] has returned [(false, nil)] in service mode it
    calls [started] and [stopped] as [script] says. *)
Fixpoint daemon (script : list daemonCall) : prog unit :=
  match script with
  | [] => mret tt
  | CallStarted :: rest =>
    tell (Calls CallStarted);;
    err ← started;
    tell (StartedReturned err);;
    daemon rest
  | CallStopped e :: rest =>
    tell (Calls (CallStopped e));;
    stopped e;;
    tell StoppedReturned;;
    daemon rest
  end.

Definition daemonMain (fl : flags) (hst : host) (script : list daemonCall)
  : prog unit :=
  r ← initService fl hst;
  tell (BeginReturned r);;
  match r with
  | (false, None) => if flRunService fl then daemon script else mret tt
  | _ => mret tt
  end.

Inductive event :=
| EvNote (n : note)
| EvStatus (st : Status)              (* Execute sent st on s *)
| EvRequest (c : ChangeRequest)       (* Execute received c on r *)
| EvTosvc (b : bool)                  (* b went from a sender to a receiver *)
| EvFromsvc (e : option error)
| EvBuffered                          (* a send left its value in a buffer *)
| EvUnbuffered.                       (* a receive took a value from a buffer *)

Record system := {
  main : prog unit;                   (* the initiating context *)
  svc : option (prog unit);           (* the goroutine of initService *)
  hdl : option handler;               (* h, once made *)
  w : world;
  requests : list ChangeRequest;      (* what the host has to send on r *)
  trace : list event                  (* oldest first *)
}.

Definition set_main (p : prog unit) (s : system) : system :=
  {| main := p; svc := svc s; hdl := hdl s; w := w s;
     requests := requests s; trace := trace s |}.
Definition set_svc (p : option (prog unit)) (s : system) : system :=
  {| main := main s; svc := p; hdl := hdl s; w := w s;
     requests := requests s; trace := trace s |}.
Definition set_hdl (h : option handler) (s : system) : system :=
  {| main := main s; svc := svc s; hdl := h; w := w s;
     requests := requests s; trace := trace s |}.
Definition set_w (v : world) (s : system) : system :=
  {| main := main s; svc := svc s; hdl := hdl s; w := v;
     requests := requests s; trace := trace s |}.
Definition set_requests (v : list ChangeRequest) (s : system) : system :=
  {| main := main s; svc := svc s; hdl := hdl s; w := w s;
     requests := v; trace := trace s |}.
Definition emit (e : event) (s : system) : system :=
  {| main := main s; svc := svc s; hdl := hdl s; w := w s;
     requests := requests s; trace := trace s ++ [e] |}.

Definition set_tosvc (c : chan bool) (h : handler) : handler :=
  {| tosvc := c; fromsvc := fromsvc h |}.
Definition set_fromsvc (c : chan (option error)) (h : handler) : handler :=
  {| tosvc := tosvc h; fromsvc := c |}.

(** A step that the goroutine at [p] takes on its own; [None]: it waits,
    or it is done. The host takes every status at once. *)
Definition local (p : prog unit) (s : system) : option (prog unit * system) :=
  match p with
  | Ret _ => None
  | Sys m k => let '(r, w') := m (w s) in Some (k r, set_w w' s)
  | Note n k => Some (k, emit (EvNote n) s)
  | MakeHandler h k => Some (k, set_hdl (Some h) s)
  | Go child k =>
    match svc s with
    | None => Some (k, set_svc (Some child) s)
    | Some _ => None
    end
  | SendTosvc b k =>
    h ← hdl s; c ← send (tosvc h) b;
    Some (k, emit EvBuffered (set_hdl (Some (set_tosvc c h)) s))
  | RecvTosvc k =>
    h ← hdl s; '(b, c) ← recv (tosvc h);
    Some (k b, emit EvUnbuffered (set_hdl (Some (set_tosvc c h)) s))
  | SendFromsvc e k =>
    h ← hdl s; c ← send (fromsvc h) e;
    Some (k, emit EvBuffered (set_hdl (Some (set_fromsvc c h)) s))
  | RecvFromsvc k =>
    h ← hdl s; '(e, c) ← recv (fromsvc h);
    Some (k e, emit EvUnbuffered (set_hdl (Some (set_fromsvc c h)) s))
  | SendStatus st k => Some (k, emit (EvStatus st) s)
  | Select kt kr =>
    h ← hdl s; '(b, c) ← recv (tosvc h);
    Some (kt b, emit EvUnbuffered (set_hdl (Some (set_tosvc c h)) s))
  | Loop body k =>
    Some (o ← body; match o with Some b => k b | None => Loop body k end, s)
  end.

(** A send of [sender] meets a receive of [receiver]: both go on. *)
Definition meet (sender receiver : prog unit)
  : option (prog unit * prog unit * event) :=
  match sender, receiver with
  | SendTosvc b k, RecvTosvc k' => Some (k, k' b, EvTosvc b)
  | SendTosvc b k, Select kt _ => Some (k, kt b, EvTosvc b)
  | SendFromsvc e k, RecvFromsvc k' => Some (k, k' e, EvFromsvc e)
  | _, _ => None
  end.

Definition empty (h : handler) : bool :=
  match buf (tosvc h), buf (fromsvc h) with
  | [], [] => true
  | _, _ => false
  end.

Inductive move :=
| Main        (* the initiating context takes a step of its own *)
| Svc         (* the goroutine of initService takes a step of its own *)
| Meet        (* a send of one meets a receive of the other *)
| Request.    (* the select of Execute takes the next request of the host *)

Definition step (m : move) (s : system) : option system :=
  match m with
  | Main =>
    '(p, s') ← local (main s) s; Some (set_main p s')
  | Svc =>
    q ← svc s; '(q', s') ← local q s; Some (set_svc (Some q') s')
  | Meet =>
    h ← hdl s; q ← svc s;
    if empty h then
      match meet (main s) q with
      | Some (p', q', e) => Some (emit e (set_svc (Some q') (set_main p' s)))
      | None =>
        '(q', p', e) ← meet q (main s);
        Some (emit e (set_svc (Some q') (set_main p' s)))
      end
    else None
  | Request =>
    q ← svc s;
    match q, requests s with
    | Select _ kr, c :: rest =>
      Some (emit (EvRequest c) (set_requests rest (set_svc (Some (kr c)) s)))
    | _, _ => None
    end
  end.

Fixpoint run (ms : list move) (s : system) : option system :=
  match ms with
  | [] => Some s
  | m :: ms => s' ← step m s; run ms s'
  end.

(** The process at its start. *)
Definition boot (fl : flags) (hst : host) (script : list daemonCall)
  (w0 : world) (reqs : list ChangeRequest) : system :=
  {| main := daemonMain fl hst script; svc := None; hdl := None; w := w0;
     requests := reqs; trace := [] |}.

(** What the trace shows. *)
Definition statuses (tr : list event) : list Status :=
  omap (fun e => match e with EvStatus st => Some st | _ => None end) tr.
Definition handled (tr : list event) : list ChangeRequest :=
  omap (fun e => match e with EvRequest c => Some c | _ => None end) tr.
Definition received (tr : list event) : list bool :=
  omap (fun e => match e with EvTosvc b => Some b | _ => None end) tr.
Definition passed (tr : list event) : list event :=
  omap (fun e => match e with
                 | EvTosvc _ | EvFromsvc _ | EvBuffered | EvUnbuffered => Some e
                 | _ => None
                 end) tr.
Definition exits (tr : list event) : list (bool * Z) :=
  omap (fun e => match e with
                 | EvNote (HandlerReturned ssec errno) => Some (ssec, errno)
                 | _ => None
                 end) tr.
Definition beginResults (tr : list event) : list (bool * option error) :=
  omap (fun e => match e with EvNote (BeginReturned r) => Some r | _ => None end) tr.
Definition startedResults (tr : list event) : list (option error) :=
  omap (fun e => match e with EvNote (StartedReturned r) => Some r | _ => None end) tr.
Definition stoppedCalls (tr : list event) : list (option error) :=
  omap (fun e => match e with
                 | EvNote (Calls (CallStopped r)) => Some r
                 | _ => None
                 end) tr.

(** What Execute sends on [s] for a request. *)
Definition reply (c : ChangeRequest) : list Status :=
  if Cmd c =? SERVICE_CONTROL_PARAMCHANGE then []
  else if Cmd c =? Interrogate then [CurrentStatus c]
  else if (Cmd c =? Stop) || (Cmd c =? Shutdown)
       then [{| StatusState := StopPending; Accepts := 0 |}]
  else [].

End System.

(** * The service run, point by point *)

Module Points.
Import OS Service System.

(** The program that is left of [p] after a step of the kind named. *)
Definition after (p : prog unit) : prog unit :=
  match p with
  | Note _ k | MakeHandler _ k | Go _ k | SendTosvc _ k | SendFromsvc _ k
  | SendStatus _ k => k
  | _ => p
  end.
Definition afterSys (p : prog unit) (r : option error) : prog unit :=
  match p with Sys _ k => k r | _ => p end.
Definition afterTosvc (p : prog unit) (b : bool) : prog unit :=
  match p with RecvTosvc k => k b | Select kt _ => kt b | _ => p end.
Definition afterFromsvc (p : prog unit) (e : option error) : prog unit :=
  match p with RecvFromsvc k => k e | _ => p end.
Definition afterRequest (p : prog unit) (c : ChangeRequest) : prog unit :=
  match p with Select _ kr => kr c | _ => p end.
Definition unfoldLoop (p : prog unit) : prog unit :=
  match p with
  | Loop body k => o ← body; match o with Some b => k b | None => Loop body k end
  | _ => p
  end.
Definition childOf (p : prog unit) : prog unit :=
  match p with Go child _ => child | _ => p end.
Fixpoint nth_after (n : nat) (p : prog unit) : prog unit :=
  match n with O => p | S n => nth_after n (after p) end.

Definition runFlags (name : string) : flags :=
  {| flServiceName := name; flRegisterService := false;
     flUnregisterService := false; flRunService := true |}.

Record obs := {
  o_statuses : list Status;
  o_handled : list ChangeRequest;
  o_passed : list event;
  o_exits : list (bool * Z);
  o_begin : list (bool * option error);
  o_started : list (option error)
}.

Definition observe (tr : list event) : obs :=
  {| o_statuses := statuses tr; o_handled := handled tr; o_passed := passed tr;
     o_exits := exits tr; o_begin := beginResults tr;
     o_started := startedResults tr |}.

Definition obs_app (o1 o2 : obs) : obs :=
  {| o_statuses := o_statuses o1 ++ o_statuses o2;
     o_handled := o_handled o1 ++ o_handled o2;
     o_passed := o_passed o1 ++ o_passed o2;
     o_exits := o_exits o1 ++ o_exits o2;
     o_begin := o_begin o1 ++ o_begin o2;
     o_started := o_started o1 ++ o_started o2 |}.

Definition h0 : handler := {| tosvc := make_chan 0; fromsvc := make_chan 0 |}.
Definition SP : Status := {| StatusState := StartPending; Accepts := 0 |}.
Definition RUN : Status :=
  {| StatusState := Running;
     Accepts := Z.lor (Z.lor AcceptStop AcceptShutdown) SERVICE_ACCEPT_PARAMCHANGE |}.
Definition exitOf (b : bool) : bool * Z := if b then (true, 1) else (false, 0).

Section Pts.
Variables (name : string) (hst : host) (err : option error) (reqs0 : list ChangeRequest).
Definition m0 := daemonMain (runFlags name) hst [CallStarted; CallStopped err].
Definition mB := nth_after 5 m0.
Definition mC0 := afterFromsvc mB None.
Definition mC2 := nth_after 2 mC0.
Definition mC3 := afterSys mC2 None.
Definition mX e := afterSys mC2 (Some e).
Definition mD0 := after mC3.
Definition mD3 := nth_after 3 mD0.
Definition mE := after mD3.
Definition mF0 := afterFromsvc mE None.
Definition s0 := childOf (nth_after 4 m0).
Definition sC := nth_after 2 s0.
Definition sX0 := afterTosvc sC true.
Definition sD0 := afterTosvc sC false.
Definition sD2 := nth_after 2 sD0.
Definition sD3 := unfoldLoop sD2.
Definition sReq c := afterRequest sD3 c.
Definition sE0 b := afterTosvc sD3 b.
Definition sE1 b := afterSys (sE0 b) None.

(** Where the goroutine of initService is while the service runs, and
    the statuses it has still to send for the request at hand. *)
Inductive svcD : prog unit -> list Status -> Prop :=
| svcD_start : svcD sD0 [RUN]
| svcD_running : svcD (after sD0) []
| svcD_loop : svcD sD2 []
| svcD_select : svcD sD3 []
| svcD_request c : svcD (sReq c) (reply c)
| svcD_stopping : svcD (Note StopDaemon sD2) [].

Definition mkobs sts hs ps ex bg st : obs :=
  {| o_statuses := sts; o_handled := hs; o_passed := ps; o_exits := ex;
     o_begin := bg; o_started := st |}.

Inductive Inv (s : system) : Prop :=
| I_A k :
    (k <= 4)%nat -> main s = nth_after k m0 -> svc s = None ->
    hdl s = match k with O => None | _ => Some h0 end ->
    observe (trace s) = mkobs [] [] [] [] [] [] ->
    requests s = reqs0 -> Inv s
| I_B k :
    (k <= 1)%nat -> main s = mB -> svc s = Some (nth_after k s0) ->
    hdl s = Some h0 ->
    observe (trace s) = mkobs (match k with O => [] | _ => [SP] end) [] [] [] [] [] ->
    requests s = reqs0 -> Inv s
| I_C k :
    (k <= 2)%nat -> main s = nth_after k mC0 -> svc s = Some sC ->
    hdl s = Some h0 ->
    observe (trace s) = mkobs [SP] [] [EvFromsvc None] []
                          (match k with O => [] | _ => [(false, None)] end) [] ->
    requests s = reqs0 -> Inv s
| I_C3 :
    main s = mC3 -> svc s = Some sC -> hdl s = Some h0 ->
    observe (trace s) = mkobs [SP] [] [EvFromsvc None] [] [(false, None)] [] ->
    requests s = reqs0 -> Inv s
| I_X e :
    main s = mX e -> svc s = Some sC -> hdl s = Some h0 ->
    observe (trace s) = mkobs [SP] [] [EvFromsvc None] [] [(false, None)] [] ->
    Inv s
| I_P e :
    In (Some e) (startedResults (trace s)) -> Inv s
| I_D k q pending sts hs :
    (k <= 3)%nat -> main s = nth_after k mD0 -> svc s = Some q ->
    svcD q pending -> hdl s = Some h0 ->
    observe (trace s) = mkobs sts hs [EvFromsvc None; EvTosvc false] []
                          [(false, None)] (match k with O => [] | _ => [None] end) ->
    sts ++ pending = SP :: RUN :: flat_map reply hs ->
    hs ++ requests s = reqs0 -> Inv s
| I_E k hs :
    (k <= 2)%nat -> main s = mE ->
    svc s = Some (match k with
                  | O => sE0 (isErr err)
                  | S k => nth_after k (sE1 (isErr err))
                  end) ->
    hdl s = Some h0 ->
    observe (trace s) = mkobs (SP :: RUN :: flat_map reply hs) hs
                          [EvFromsvc None; EvTosvc false; EvTosvc (isErr err)]
                          (match k with
                           | 2%nat => [exitOf (isErr err)]
                           | _ => []
                           end)
                          [(false, None)] [None] ->
    hs ++ requests s = reqs0 -> Inv s
| I_F k hs :
    (k <= 1)%nat -> main s = nth_after k mF0 -> svc s = Some (Ret tt) ->
    hdl s = Some h0 ->
    observe (trace s) = mkobs (SP :: RUN :: flat_map reply hs) hs
                          [EvFromsvc None; EvTosvc false; EvTosvc (isErr err);
                           EvFromsvc (runResult hst (exitOf (isErr err)))]
                          [exitOf (isErr err)]
                          [(false, None)] [None] ->
    hs ++ requests s = reqs0 -> Inv s.
End Pts.

(** Begin succeeds on this host. *)
Definition serves (hst : host) : Prop :=
  runError hst = None /\
  (IsAnInteractiveSession hst = inl true \/
   IsAnInteractiveSession hst = inl false /\ exists l, eventlogOpen hst = inl l).

(** The values that pass between the two goroutines in a run of begin,
    started and stopped, in their order. *)
Definition handshakes (hst : host) (err : option error) : list event :=
  [EvFromsvc None; EvTosvc false; EvTosvc (isErr err);
   EvFromsvc (runResult hst (exitOf (isErr err)))].

(** A handler as [initService] makes it: no room in either channel. *)
Definition wellmade (h : handler) : Prop :=
  cap (tosvc h) = 0%nat /\ cap (fromsvc h) = 0%nat /\
  buf (tosvc h) = [] /\ buf (fromsvc h) = [].

(** Every handler that [p] makes is made without buffers. *)
Fixpoint unbuf (R : Type) (p : prog R) {struct p} : Prop :=
  match p with
  | Ret _ => True
  | Sys _ k => forall r, unbuf R (k r)
  | Note _ k => unbuf R k
  | MakeHandler h k => wellmade h /\ unbuf R k
  | Go child k => unbuf unit child /\ unbuf R k
  | SendTosvc _ k => unbuf R k
  | RecvTosvc k => forall b, unbuf R (k b)
  | SendFromsvc _ k => unbuf R k
  | RecvFromsvc k => forall e, unbuf R (k e)
  | SendStatus _ k => unbuf R k
  | Select kt kr => (forall b, unbuf R (kt b)) /\ (forall c, unbuf R (kr c))
  | Loop body k => unbuf (option bool) body /\ forall b, unbuf R (k b)
  end.
Arguments unbuf {R} p.

Definition silent (e : event) : Prop := e <> EvBuffered /\ e <> EvUnbuffered.

(** The channels of a state are without buffers, and stay so. *)
Record rendezvous (s : system) : Prop := {
  rv_main : unbuf (main s);
  rv_svc : forall q, svc s = Some q -> unbuf q;
  rv_hdl : forall h, hdl s = Some h -> wellmade h;
  rv_trace : Forall silent (trace s)
}.

(** The goroutine at [p] is at a send on one of the two channels. *)
Definition atSend (p : prog unit) : Prop :=
  match p with
  | SendTosvc _ _ | SendFromsvc _ _ => True
  | _ => False
  end.

(** The daemon body has called [stopped] with the error [e]. *)
Definition stopNote (e : error) : event := EvNote (Calls (CallStopped (Some e))).

(** What the initiating context may do: [g] tells whether a call of
    [stopped] with an error has been noted; only then may [true] be
    sent on tosvc. *)
Fixpoint dside (hst : host) (R : Type) (g : bool) (p : prog R) {struct p} : Prop :=
  match p with
  | Ret _ => True
  | Sys _ k => forall r, dside hst R g (k r)
  | Note n k =>
    match n with
    | Calls (CallStopped (Some _)) => dside hst R true k
    | HandlerReturned _ _ => False
    | _ => dside hst R g k
    end
  | MakeHandler _ k => dside hst R g k
  | Go child k => child = serviceGoroutine hst /\ dside hst R g k
  | SendTosvc b k => (b = true -> g = true) /\ dside hst R g k
  | RecvFromsvc k => forall e, dside hst R g (k e)
  | _ => False
  end.
Arguments dside hst {R} g p.

Section Abort.
Variable hst : host.
Definition g0 : prog unit := serviceGoroutine hst.
Definition gX : prog unit := afterTosvc (nth_after 2 g0) true.

(** Where the goroutine of initService is, with what the trace shows of
    it, until it has received [false]. *)
Inductive svcSide : option (prog unit) -> list event -> Prop :=
| V_none tr :
    statuses tr = [] -> received tr = [] -> exits tr = [] ->
    svcSide None tr
| V_err e k tr :
    runError hst = Some e -> (k <= 1)%nat ->
    statuses tr = [] -> received tr = [] -> exits tr = [] ->
    svcSide (Some (nth_after k g0)) tr
| V_B k tr :
    runError hst = None -> (k <= 2)%nat ->
    statuses tr = match k with O => [] | _ => [SP] end ->
    received tr = [] -> exits tr = [] ->
    svcSide (Some (nth_after k g0)) tr
| V_X k tr :
    runError hst = None -> (k <= 3)%nat ->
    statuses tr = [SP] -> received tr = [true] ->
    exits tr = match k with O | 1%nat => [] | _ => [(true, 1)] end ->
    (exists e, In (stopNote e) tr) ->
    svcSide (Some (nth_after k gX)) tr
| V_run q tr :
    hd_error (received tr) = Some false -> svcSide q tr.

Definition mainSide (p : prog unit) (tr : list event) : Prop :=
  exists g, dside hst g p /\ (g = true -> exists e, In (stopNote e) tr).

Record abortInv (s : system) : Prop := {
  ai_rv : rendezvous s;
  ai_main : mainSide (main s) (trace s);
  ai_svc : svcSide (svc s) (trace s)
}.
End Abort.

End Points.

(** * Concrete inputs *)

Module Examples.
Import OS Service System Points.

Definition panicPath : string := "C:\docker\panic.log".

(** A host with a panic file that a previous run has left with content. *)
Definition world_old : world :=
  {| files := {[ panicPath := "panic: boom" ]}; handles := ∅; nextFd := 100;
     stdErr := 3; faults := []; calls := []; oldStderr := 0;
     panicFile := None; ConfigRoot := "C:\docker"; Args := ["dockerd.exe"] |}.

(** A host in which the panic file is open as handle 100 with the
    content [c], and the standard error handle points to it. *)
Definition world_open (c : string) : world :=
  {| files := {[ panicPath := c ]}; handles := {[ 100 := panicPath ]};
     nextFd := 101; stdErr := 100; faults := []; calls := []; oldStderr := 3;
     panicFile := Some {| Fd := 100; Name := panicPath |};
     ConfigRoot := "C:\docker"; Args := ["dockerd.exe"] |}.


(** [--run-service] alone. *)
Definition flags_run : flags :=
  {| flServiceName := "docker"; flRegisterService := false;
     flUnregisterService := false; flRunService := true |}.


(** A host that runs the process as a service and lets nothing fail. *)
Definition host_service : host :=
  {| IsAnInteractiveSession := inl false; eventlogOpen := inl 7;
     runError := None; runResult := fun _ => None |}.

Definition script_ok : list daemonCall := [CallStarted; CallStopped None].

(** begin, started, stopped(nil) with no request from the host. *)
Definition moves_plain : list move :=
  [Main; Main; Main; Main; Main; Svc; Meet; Main; Main; Main; Meet; Main; Main;
   Main; Svc; Svc; Svc; Meet; Svc; Svc; Meet; Main].

Definition interrogate : ChangeRequest :=
  {| Cmd := Interrogate; CurrentStatus := RUN |}.
Definition stop : ChangeRequest :=
  {| Cmd := Stop; CurrentStatus := RUN |}.

(** The same with an Interrogate and a Stop request while the service
    runs. *)
Definition moves_stop : list move :=
  [Main; Main; Main; Main; Main; Svc; Meet; Main; Main; Main; Meet; Main;
   Svc; Svc; Svc; Request; Svc; Svc; Request; Svc; Svc; Svc;
   Main; Main; Meet; Svc; Svc; Meet; Main].

Definition final (ms : list move) (s : system) : system :=
  match run ms s with Some s' => s' | None => s end.

(** The daemon fails before it is up and calls stopped with its error. *)
Definition script_abort : list daemonCall := [CallStopped (Some "boom")].
Definition moves_abort : list move :=
  [Main; Main; Main; Main; Main; Svc; Meet; Main; Main; Main; Meet; Svc; Svc;
   Meet; Main].
(** A host that refuses to open the panic file. *)
Definition world_denied : world :=
  {| files := ∅; handles := ∅; nextFd := 100; stdErr := 3;
     faults := [Some "Access is denied."]; calls := []; oldStderr := 0;
     panicFile := None; ConfigRoot := "C:\docker"; Args := ["dockerd.exe"] |}.
Definition moves_denied : list move :=
  [Main; Main; Main; Main; Main; Svc; Meet; Main; Main; Main; Main].


(** The daemon body about to call [started], the handler waiting for it. *)
Definition at_started (w0 : world) : system :=
  {| main := e ← started; tell (StartedReturned e);
     svc := Some (RecvTosvc (fun _ => Ret tt));
     hdl := Some h0; w := w0; requests := []; trace := [] |}.

End Examples.

(** * What the host's answers decide *)

Module Outcomes.
Import EventLog OS Service.

(** The first error in a list of answers of the host. *)
Fixpoint firstError (fs : list (option error)) : option error :=
  match fs with
  | [] => None
  | Some e :: _ => Some e
  | None :: fs => firstError fs
  end.

(** The calls made between [w] and [w']. *)
Definition newCalls (w w' : world) : list call :=
  drop (length (calls w)) (calls w').

(** The error, if any, of lines 222-238 of [initService]: that of
    [svc.IsAnInteractiveSession], or that of [eventlog.Open], which is
    called in a session that is not interactive. *)
Definition setupError (hst : host) : option error :=
  match IsAnInteractiveSession hst with
  | inr e => Some e
  | inl true => None
  | inl false =>
    match eventlogOpen hst with
    | inr e => Some e
    | inl _ => None
    end
  end.

(** The error that keeps begin from succeeding: that of the set-up, or
    that of [Run] when it fails before it calls the handler. *)
Definition beginError (hst : host) : option error :=
  match setupError hst with
  | Some e => Some e
  | None => runError hst
  end.

(** A host that refuses nothing, with no panic file, and the command
    line of a user who registers the service. *)
Definition world_register : world :=
  {| files := ∅; handles := ∅; nextFd := 100; stdErr := 3; faults := [];
     calls := []; oldStderr := 0; panicFile := None; ConfigRoot := "C:\docker";
     Args := ["dockerd.exe"; "--register-service"; "-D"; "--unregister-service";
              "-D"; "--service-name"; "docker2"] |}.

(** A host on which the service control manager cannot be reached. *)
Definition host_norun : host :=
  {| IsAnInteractiveSession := inl false; eventlogOpen := inl 7;
     runError := Some "The service process could not connect to the service controller.";
     runResult := fun _ => None |}.

(** An entry whose message has a NUL byte. *)
Definition entry_nul : @Entry string :=
  {| EntryLevel := ErrorLevel; Message := String Ascii.zero "m"; Data := [] |}.

(** The record that [entry_a1] leads to with the log handle 7. *)
Definition record_a1 : EventRecord :=
  {| evHandle := 7; evType := EVENTLOG_INFORMATION_TYPE; evCategory := 0;
     evID := 11; evUserSid := 0; evNumStrings := 2; evDataSize := 0;
     evStrings := [Some "m"; Some "a=1"] |}.

End Outcomes.

(** * Facts about strings *)

Lemma string_app_cons (x : ascii) (a b : string) :
  String x a +:+ b = String x (a +:+ b).
Proof. reflexivity. Qed.

Lemma string_app_nil_l (b : string) : "" +:+ b = b.
Proof. reflexivity. Qed.

Lemma substring_prefix (a b : string) :
  substring 0 (String.length a) (a +:+ b) = a.
Proof.
  induction a as [|x a IH].
  - rewrite string_app_nil_l. destruct b; reflexivity.
  - rewrite string_app_cons. simpl. now rewrite IH.
Qed.

Lemma string_length_app (a b : string) :
  String.length (a +:+ b) = (String.length a + String.length b)%nat.
Proof.
  induction a as [|x a IH]; [reflexivity|].
  rewrite string_app_cons. simpl. now rewrite IH.
Qed.

Lemma string_app_assoc (a b c : string) : (a +:+ b) +:+ c = a +:+ (b +:+ c).
Proof.
  induction a as [|x a IH]; [reflexivity|].
  rewrite !string_app_cons. now rewrite IH.
Qed.

Lemma string_app_empty_r (a : string) : a +:+ "" = a.
Proof.
  induction a as [|x a IH]; [reflexivity|].
  rewrite string_app_cons. now rewrite IH.
Qed.

Lemma dropLastByte_snoc (a : string) (c : ascii) :
  dropLastByte (a +:+ String c "") = a.
Proof.
  unfold dropLastByte. rewrite string_length_app. simpl.
  replace (String.length a + 1 - 1)%nat with (String.length a) by lia.
  apply substring_prefix.
Qed.

(** * Facts about the event-log hook *)

Module EventLogFacts.
Import EventLog.

Section Hook.

Context {Value : Type} (Sprint : Value -> string).
Context (hostReportEvent : EventRecord -> option error).

Local Abbreviation Fire := (Fire Sprint hostReportEvent).
Local Abbreviation joinFields := (joinFields Sprint).
Local Abbreviation showField := (showField Sprint).
Local Abbreviation extension := (extension Sprint).
Local Abbreviation strings := (strings Sprint).

Lemma levelEvent_known (l : Level) :
  In l Levels <-> is_Some (levelEvent l).
Proof.
  unfold Levels, levelEvent. split.
  - simpl. intros [<-|[<-|[<-|[<-|[<-|[<-|[]]]]]]]; simpl; eauto.
  - intros [x Hx]. simpl.
    repeat match type of Hx with
           | context [(l =? ?c)%N] =>
             destruct (N.eqb_spec l c) as [->|_]; [tauto|]
           end.
    discriminate.
Qed.

Lemma levelEvent_eid (l : Level) (etype eid : Z) :
  levelEvent l = Some (etype, eid) -> 1 <= eid <= 4.
Proof.
  unfold levelEvent.
  repeat match goal with
         | |- context [(l =? ?c)%N] => destruct (l =? c)%N
         end; intros [= <- <-]; cbv; intuition discriminate.
Qed.

(** The loop leaves [key=value] and a space for each field behind what
    the buffer held. *)
Lemma fold_writeField (data : list (string * Value)) (fs : string) :
  data <> [] ->
  fold_left (writeField Sprint) data fs = fs +:+ joinFields data +:+ " ".
Proof.
  revert fs. induction data as [|kv [|kv' rest] IH]; intros fs Hne.
  - congruence.
  - simpl. unfold writeField, EventLog.joinFields, EventLog.showField. simpl.
    now rewrite !string_app_assoc.
  - change (fold_left (writeField Sprint) (kv :: kv' :: rest) fs)
      with (fold_left (writeField Sprint) (kv' :: rest) (writeField Sprint fs kv)).
    rewrite IH by discriminate.
    change (joinFields (kv :: kv' :: rest))
      with (showField kv +:+ " " +:+ joinFields (kv' :: rest)).
    unfold writeField, EventLog.showField.
    now rewrite !string_app_assoc.
Qed.

Lemma writeFields_join (data : list (string * Value)) :
  data <> [] -> dropLastByte (writeFields Sprint data) = joinFields data.
Proof.
  intros Hne. unfold writeFields. rewrite fold_writeField by assumption.
  rewrite string_app_nil_l. apply dropLastByte_snoc.
Qed.

Lemma joinFields_not_empty (data : list (string * Value)) :
  data <> [] -> String.eqb (joinFields data) "" = false.
Proof.
  intros Hne. apply String.eqb_neq. intros Heq.
  apply (f_equal String.length) in Heq.
  destruct data as [|[k v] [|kv' rest]]; [congruence| |].
  - unfold EventLog.joinFields, EventLog.showField in Heq. simpl in Heq.
    rewrite !string_length_app in Heq. simpl in Heq. lia.
  - change (joinFields ((k, v) :: kv' :: rest))
      with (showField (k, v) +:+ " " +:+ joinFields (kv' :: rest)) in Heq.
    unfold EventLog.showField in Heq.
    rewrite !string_length_app in Heq. simpl in Heq. lia.
Qed.

Lemma extend_fields (data : list (string * Value)) (eid : Z) :
  data <> [] -> 1 <= eid <= 4 ->
  extend Sprint data eid = (joinFields data, eid + eventExtraOffset).
Proof.
  intros Hne Heid. unfold extend.
  destruct data as [|kv rest]; [congruence|].
  change (0 <? length (kv :: rest))%nat with true. cbv iota.
  rewrite writeFields_join by assumption.
  unfold wrap32, eventExtraOffset. rewrite Z.mod_small by lia. reflexivity.
Qed.

(** C10: an entry whose level is none of the six makes [Fire] return an
    error; nothing goes to the event log or to the fallback stream. *)
Theorem Fire_unknown_level (h : etwHook) (e : Entry) :
  ~ In (EntryLevel e) Levels ->
  Fire h e = (Some "unknown level", []).
Proof.
  intros Hl. unfold EventLog.Fire.
  destruct (levelEvent (EntryLevel e)) as [[etype eid]|] eqn:Hlev; [|reflexivity].
  exfalso. apply Hl, levelEvent_known. eauto.
Qed.

(** C6, amended: for an entry of a known level, the second string is the
    fields as [key=value] joined by single spaces and the identifier is
    the base identifier plus 10 when there are fields, and they are the
    empty string and the base identifier when there are none. Without a
    log handle [Fire] writes the message and the second string to the
    fallback stream; with one, and when the strings have no NUL byte, it
    submits one record with that identifier and two strings when there
    are fields, one string when there are none. *)
Theorem Fire_known_level (h : etwHook) (e : Entry) (etype eid : Z) :
  levelEvent (EntryLevel e) = Some (etype, eid) ->
  extend Sprint (Data e) eid = (extension (Data e), identifier (Data e) eid) /\
  (log h = None ->
   Fire h e =
     (None, [WriteStderr (Message e +:+ " [" +:+ extension (Data e) +:+ "]" +:+ newline)])) /\
  (forall handle,
     log h = Some handle ->
     hasNul (Message e) = false -> hasNul (extension (Data e)) = false ->
     exists r,
       Fire h e = (hostReportEvent r, [ReportEvent r]) /\
       evHandle r = handle /\ evType r = etype /\
       evID r = identifier (Data e) eid /\
       evNumStrings r = Z.of_nat (length (strings (Message e) (Data e))) /\
       submitted r = strings (Message e) (Data e)).
Proof.
  intros Hlev. pose proof (levelEvent_eid _ _ _ Hlev) as Heid.
  assert (Hext : extend Sprint (Data e) eid
                 = (extension (Data e), identifier (Data e) eid)).
  { destruct (Data e) as [|kv rest] eqn:Hd; [reflexivity|].
    now rewrite extend_fields. }
  split; [exact Hext|]. unfold EventLog.Fire. rewrite Hlev, Hext. split.
  - intros ->. reflexivity.
  - intros handle -> Hmsg Hexts.
    unfold UTF16PtrFromString. rewrite Hmsg, Hexts.
    destruct (Data e) as [|kv rest] eqn:Hd.
    + simpl. eexists. split; [reflexivity|]. simpl. tauto.
    + unfold extension, identifier, strings.
      rewrite joinFields_not_empty by discriminate.
      eexists. split; [reflexivity|]. simpl. tauto.
Qed.

End Hook.

(** C4, amended: the six levels have six different pairs of event type
    and identifier. Warn has the warning type, Info and Debug the
    information type, Error, Fatal and Panic the error type; Info, Warn
    and Error share the identifier 1, Debug has 2, Panic 3 and Fatal 4. *)
Theorem levelEvent_table :
  levelEvent WarnLevel = Some (EVENTLOG_WARNING_TYPE, 1) /\
  levelEvent InfoLevel = Some (EVENTLOG_INFORMATION_TYPE, 1) /\
  levelEvent DebugLevel = Some (EVENTLOG_INFORMATION_TYPE, 2) /\
  levelEvent ErrorLevel = Some (EVENTLOG_ERROR_TYPE, 1) /\
  levelEvent FatalLevel = Some (EVENTLOG_ERROR_TYPE, 4) /\
  levelEvent PanicLevel = Some (EVENTLOG_ERROR_TYPE, 3) /\
  forall l1 l2, In l1 Levels -> In l2 Levels ->
    levelEvent l1 = levelEvent l2 -> l1 = l2.
Proof.
  repeat (split; [reflexivity|]).
  intros l1 l2 H1 H2. unfold Levels in *. simpl in H1, H2.
  destruct H1 as [<-|[<-|[<-|[<-|[<-|[<-|[]]]]]]];
    destruct H2 as [<-|[<-|[<-|[<-|[<-|[<-|[]]]]]]];
    cbv; congruence.
Qed.

(** C4 as the specification has it fails: Info and Warn are two of the
    six levels and have the same identifier. *)
Lemma levelID_not_injective :
  ~ (forall l1 l2, In l1 Levels -> In l2 Levels ->
       l1 <> l2 -> levelID l1 <> levelID l2).
Proof.
  intros H. apply (H InfoLevel WarnLevel); cbv; auto 10. discriminate.
Qed.

Local Abbreviation FireS := (Fire (fun v : string => v) (fun _ => None)).

(** C6 as the specification has it fails: in an interactive session the
    hook has no log handle, and an entry with a field goes to the
    fallback stream; no record is submitted. *)
Lemma Fire_fields_no_handle :
  Data entry_a1 <> [] /\
  FireS {| log := None |} entry_a1
    = (None, [WriteStderr ("m [a=1]" +:+ newline)]) /\
  ~ (exists r, In (ReportEvent r) (FireS {| log := None |} entry_a1).2).
Proof.
  split; [discriminate|]. split; [reflexivity|].
  intros [r [H|[]]]. discriminate H.
Qed.

Lemma Fire_known_level_witness :
  exists r,
    FireS {| log := Some 7 |} entry_a1 = (None, [ReportEvent r]) /\
    evID r = 11 /\ submitted r = [Some "m"; Some "a=1"].
Proof.
  destruct (Fire_known_level (fun v : string => v) (fun _ => None)
              {| log := Some 7 |} entry_a1 EVENTLOG_INFORMATION_TYPE 1
              eq_refl) as (_ & _ & H).
  destruct (H 7 eq_refl eq_refl eq_refl) as (r & Hr & _ & _ & Hid & _ & Hs).
  exists r. split; [exact Hr|]. split; [exact Hid | exact Hs].
Defined.

Lemma Fire_unknown_level_witness :
  FireS {| log := Some 7 |}
        {| EntryLevel := 6%N; Message := "m"; Data := [("a", "1")] |}
  = (Some "unknown level", []).
Proof.
  apply Fire_unknown_level. unfold Levels. simpl.
  intros [H|[H|[H|[H|[H|[H|[]]]]]]]; discriminate H.
Defined.

End EventLogFacts.

(** * Facts about the panic file *)

Module PanicFileFacts.
Import OS PanicFile.

Ltac quiet :=
  split; simpl;
  [reflexivity | split; [reflexivity | exists []; now rewrite app_nil_r]].

Ltac hostcall_cases w :=
  unfold hostcall, mbind, M_bind, mret, M_ret; simpl;
  destruct (faults w) as [|[?|] ?]; simpl;
  repeat match goal with
         | |- context [match ?x with Some _ => _ | None => _ end] =>
           destruct x eqn:?
         end; simpl.

Lemma quietly_trans w1 w2 w3 : quietly w1 w2 -> quietly w2 w3 -> quietly w1 w3.
Proof.
  intros (H1 & H2 & l & H4) (H1' & H2' & l' & H4').
  split; [congruence|]. split; [congruence|].
  exists (l ++ l'). now rewrite H4', H4, app_assoc.
Qed.

Lemma hostcall_quietly {A} (c : call) (ok : M (A + error)) (w : world) :
  (forall w0, quietly w0 (ok w0).2) -> quietly w (hostcall c ok w).2.
Proof.
  intros Hok. unfold hostcall.
  assert (Hq : forall fs, quietly w (set_faults fs (set_calls (calls w ++ [c]) w))).
  { intros fs. split; [reflexivity|]. split; [reflexivity|]. now exists [c]. }
  simpl. destruct (faults w) as [|[e|] fs]; simpl;
    [eapply quietly_trans; [apply Hq | apply Hok] | apply Hq
    |eapply quietly_trans; [apply Hq | apply Hok]].
Qed.

Lemma OpenFile_quietly path flag perm w r w' :
  OpenFile path flag perm w = (r, w') -> quietly w w'.
Proof.
  intros H. change w' with (r, w').2. rewrite <- H.
  apply hostcall_quietly. intros w0.
  destruct (files w0 !! path); [|destruct (hasFlag flag O_CREATE)]; quiet.
Qed.

Lemma Stat_quietly f w r w' : Stat f w = (r, w') -> quietly w w'.
Proof.
  intros H. change w' with (r, w').2. rewrite <- H.
  destruct f as [f|]; [|quiet].
  apply hostcall_quietly. intros w0.
  destruct (handles w0 !! Fd f) as [p|]; [destruct (files w0 !! p)|]; quiet.
Qed.

Lemma Close_quietly f w r w' : Close f w = (r, w') -> quietly w w'.
Proof.
  intros H. change w' with (r, w').2. rewrite <- H.
  destruct f as [f|]; [|quiet].
  apply hostcall_quietly. intros w0.
  destruct (handles w0 !! Fd f) as [p|]; quiet.
Qed.

Lemma Rename_quietly a b w r w' : Rename a b w = (r, w') -> quietly w w'.
Proof.
  intros H. change w' with (r, w').2. rewrite <- H.
  apply hostcall_quietly. intros w0.
  destruct (files w0 !! a); quiet.
Qed.

Lemma quietly_set_panicFile f w w' :
  quietly (set_panicFile f w) w' ->
  stdErr w' = stdErr w /\ panicFile w' = f /\ exists l, calls w' = calls w ++ l.
Proof. intros H. exact H. Qed.

Lemma Stat_frame f w r w1 :
  Stat f w = (r, w1) ->
  files w1 = files w /\ handles w1 = handles w /\ stdErr w1 = stdErr w /\
  oldStderr w1 = oldStderr w /\ panicFile w1 = panicFile w.
Proof.
  destruct f as [f|]; [|now intros [= <- <-]].
  unfold Stat. hostcall_cases w; intros [= <- <-]; auto.
Qed.

Lemma setStdHandleCall_spec sh h w r w' :
  setStdHandleCall sh h w = (r, w') ->
  calls w' = calls w ++ [CSetStdHandle sh h] /\
  (faults w = [] ->
   faults w' = [] /\ stdErr w' = h /\ handles w' = handles w /\ files w' = files w).
Proof.
  unfold setStdHandleCall.
  hostcall_cases w; intros [= <- <-]; simpl; split; auto; discriminate.
Qed.

Lemma Close_spec f w r w' :
  Close (Some f) w = (r, w') ->
  calls w' = calls w ++ [CClose (Fd f)] /\
  (faults w = [] ->
   faults w' = [] /\ stdErr w' = stdErr w /\ handles w' !! Fd f = None /\
   files w' = files w).
Proof.
  unfold Close.
  hostcall_cases w; intros [= <- <-]; simpl; split; auto; try discriminate.
  all: intros _; repeat split; auto; apply lookup_delete_eq.
Qed.

Lemma Remove_spec path w r w' :
  Remove path w = (r, w') ->
  calls w' = calls w ++ [CRemove path] /\
  (faults w = [] ->
   faults w' = [] /\ stdErr w' = stdErr w /\ handles w' = handles w /\
   files w' !! path = None).
Proof.
  unfold Remove.
  hostcall_cases w; intros [= <- <-]; simpl; split; auto; try discriminate.
  all: intros _; repeat split; auto; apply lookup_delete_eq.
Qed.

Lemma redirectStderr_ok w w' :
  redirectStderr w = (None, w') ->
  oldStderr w' = stdErr w /\ stdErr w' = fdOf (panicFile w) /\
  panicFile w' = panicFile w /\
  calls w' = calls w ++ [CGetStdHandle STD_ERROR_HANDLE;
                         CSetStdHandle STD_ERROR_HANDLE (fdOf (panicFile w))].
Proof.
  unfold redirectStderr, GetStdHandle, setStdHandleCall, hostcall, mbind, M_bind.
  simpl. destruct (faults w) as [|[e|] [|[e'|] fs]]; simpl; unfold mret, M_ret;
    intros [= <-]; simpl; rewrite <- ?app_assoc; auto.
Qed.

(** A successful installation has saved the handle that was the standard
    error handle at the call, and has then, as its last call, pointed
    the standard error handle to the panic file. *)
Lemma initPanicFile_ok path w w' :
  initPanicFile path w = (None, w') ->
  oldStderr w' = stdErr w /\ stdErr w' = fdOf (panicFile w') /\
  is_Some (panicFile w') /\
  exists pre, calls w' = calls w ++ pre ++
     [CGetStdHandle STD_ERROR_HANDLE;
      CSetStdHandle STD_ERROR_HANDLE (fdOf (panicFile w'))].
Proof.
  assert (Hfin : forall w3, stdErr w3 = stdErr w -> is_Some (panicFile w3) ->
            (exists l, calls w3 = calls w ++ l) ->
            redirectStderr w3 = (None, w') ->
            oldStderr w' = stdErr w /\ stdErr w' = fdOf (panicFile w') /\
            is_Some (panicFile w') /\
            exists pre, calls w' = calls w ++ pre ++
              [CGetStdHandle STD_ERROR_HANDLE;
               CSetStdHandle STD_ERROR_HANDLE (fdOf (panicFile w'))]).
  { intros w3 Hs Hp [l Hl] (H1 & H2 & H3 & H4)%redirectStderr_ok.
    rewrite H3. repeat split; [congruence|congruence|assumption|].
    exists l. rewrite H4, Hl. now rewrite <- app_assoc. }
  unfold initPanicFile, mbind, M_bind, mret, M_ret, modify.
  destruct (OpenFile _ _ _ w) as [[f|e] w1] eqn:HO; cbv beta iota zeta; [|discriminate].
  apply OpenFile_quietly in HO. destruct HO as (Hs1 & _ & l1 & Hl1).
  destruct (Stat _ _) as [[size|e] w2] eqn:HS; cbv beta iota zeta; [|discriminate].
  apply Stat_quietly, quietly_set_panicFile in HS.
  destruct HS as (Hs2 & Hp2 & l2 & Hl2).
  destruct (0 <? size).
  - destruct (Close _ _) as [r3 w3] eqn:HC.
    apply Close_quietly in HC. destruct HC as (Hs3 & _ & l3 & Hl3).
    destruct (Rename _ _ _) as [r4 w4] eqn:HR.
    apply Rename_quietly in HR. destruct HR as (Hs4 & _ & l4 & Hl4).
    destruct (Create _ _) as [[f'|e] w5] eqn:HCr; [|discriminate].
    apply OpenFile_quietly in HCr. destruct HCr as (Hs5 & _ & l5 & Hl5).
    apply Hfin; simpl; [congruence | eauto |].
    exists (l1 ++ l2 ++ l3 ++ l4 ++ l5).
    rewrite Hl5, Hl4, Hl3, Hl2, Hl1. now rewrite <- !app_assoc.
  - apply Hfin; [congruence | rewrite Hp2; eauto |].
    exists (l1 ++ l2). rewrite Hl2, Hl1. now rewrite <- !app_assoc.
Qed.

Lemma old_path_ne (path : string) : path <> path +:+ ".old".
Proof.
  intros H. apply (f_equal String.length) in H.
  rewrite string_length_app in H. simpl in H. lia.
Qed.

(** On a host that refuses no call, a file with content at [path] is
    closed, moved to [path.old] and replaced by an empty one. *)
Lemma initPanicFile_rotation path c w :
  files w !! path = Some c -> c <> "" -> faults w = [] ->
  exists w', initPanicFile path w = (None, w') /\
    calls w' = calls w ++
      [COpenFile path (Z.lor O_CREATE (Z.lor O_WRONLY O_APPEND)) 0;
       CStat (nextFd w); CClose (nextFd w);
       CRename path (path +:+ ".old");
       COpenFile path (Z.lor O_RDWR (Z.lor O_CREATE O_TRUNC)) 0x1b6;
       CGetStdHandle STD_ERROR_HANDLE;
       CSetStdHandle STD_ERROR_HANDLE (nextFd w + 1)] /\
    files w' !! (path +:+ ".old") = Some c /\
    files w' !! path = Some "" /\
    handles w' !! nextFd w = None /\
    handles w' !! (nextFd w + 1) = Some path /\
    panicFile w' = Some {| Fd := nextFd w + 1; Name := path |}.
Proof.
  intros Hf Hc Hq.
  assert (Hsize : (0 <? Z.of_nat (String.length c)) = true).
  { destruct c; [congruence|]. apply Z.ltb_lt. simpl String.length. lia. }
  pose proof (old_path_ne path) as Hne.
  assert (Hfd : nextFd w <> nextFd w + 1) by lia.
  unfold initPanicFile, redirectStderr, Create, OpenFile, Stat, Close, Rename,
    GetStdHandle, setStdHandleCall, hostcall, mbind, M_bind, mret, M_ret,
    modify, gets.
  simpl. rewrite Hq. simpl. rewrite Hf. simpl.
  rewrite lookup_insert_eq. simpl. rewrite lookup_insert_eq. rewrite Hsize. simpl.
  rewrite lookup_insert_eq. simpl. rewrite lookup_insert_eq. simpl.
  match goal with
  | |- context [match ?x with Some _ => _ | None => _ end] => destruct x
  end; simpl.
  all: eexists; (split; [reflexivity|]); simpl.
  all: rewrite <- !app_assoc; simpl.
  all: repeat split; try reflexivity.
  all: try (rewrite lookup_insert_ne by congruence; apply lookup_insert_eq).
  all: try apply lookup_insert_eq.
  all: try (rewrite lookup_insert_ne by congruence; apply lookup_delete_eq).
Qed.

Lemma OpenFile_calls path flag perm w r w' :
  OpenFile path flag perm w = (r, w') ->
  calls w' = calls w ++ [COpenFile path flag perm].
Proof.
  unfold OpenFile, hostcall. simpl. intros H.
  repeat case_match; injection H as <- <-; reflexivity.
Qed.

Lemma Rename_calls a b w r w' :
  Rename a b w = (r, w') -> calls w' = calls w ++ [CRename a b].
Proof.
  unfold Rename. hostcall_cases w; intros [= <- <-]; reflexivity.
Qed.

Lemma redirectStderr_calls w r w' :
  redirectStderr w = (r, w') -> exists l, calls w' = calls w ++ l.
Proof.
  unfold redirectStderr, GetStdHandle, setStdHandleCall, hostcall, mbind, M_bind.
  simpl. destruct (faults w) as [|[e|] [|[e'|] fs]]; simpl; unfold mret, M_ret;
    intros [= <- <-]; simpl; rewrite <- ?app_assoc; eauto.
Qed.

(** Whatever the host refuses later: once the file at [path] is open and
    has a size above zero, the next calls close it, rename it to
    [path.old] and create the file anew. *)
Lemma initPanicFile_rotation_calls path w f w1 size w2 :
  OpenFile path (Z.lor O_CREATE (Z.lor O_WRONLY O_APPEND)) 0 w = (inl f, w1) ->
  Stat (Some f) (set_panicFile (Some f) w1) = (inl size, w2) ->
  0 < size ->
  exists rest,
    calls (initPanicFile path w).2 =
      calls w2 ++ [CClose (Fd f); CRename path (path +:+ ".old");
                   COpenFile path (Z.lor O_RDWR (Z.lor O_CREATE O_TRUNC)) 0x1b6]
               ++ rest.
Proof.
  intros HO HS Hsize. apply Z.ltb_lt in Hsize.
  unfold initPanicFile, mbind, M_bind, mret, M_ret, modify.
  rewrite HO. cbv beta iota zeta. rewrite HS. cbv beta iota zeta. rewrite Hsize.
  destruct (Close _ w2) as [r3 w3] eqn:HC.
  destruct (Rename _ _ w3) as [r4 w4] eqn:HR.
  destruct (Create _ w4) as [r5 w5] eqn:HCr.
  apply Close_spec in HC as [C3 _]. apply Rename_calls in HR.
  apply OpenFile_calls in HCr.
  destruct r5 as [f'|e]; simpl.
  - destruct (redirectStderr _) as [r6 w6] eqn:H6.
    apply redirectStderr_calls in H6 as [l Hl]. simpl in *.
    exists l. rewrite Hl, HCr, HR, C3. now rewrite <- !app_assoc.
  - exists []. rewrite HCr, HR, C3. now rewrite <- !app_assoc.
Qed.

(** C7: [initPanicFile] on a path whose file is open and has a size
    above zero closes that file, renames it to [path.old] and creates
    the file anew, in this order and whatever the host refuses later; on
    a host that refuses no call the old content is then at [path.old]
    and an empty file at [path]. Every installation that returns nil
    has saved the standard error handle of the process in [oldStderr]
    before it pointed that handle to the new file. *)
Theorem initPanicFile_spec (path : string) (w : world) :
  (forall f w1 size w2,
     OpenFile path (Z.lor O_CREATE (Z.lor O_WRONLY O_APPEND)) 0 w = (inl f, w1) ->
     Stat (Some f) (set_panicFile (Some f) w1) = (inl size, w2) ->
     0 < size ->
     exists rest,
       calls (initPanicFile path w).2 =
         calls w2 ++ [CClose (Fd f); CRename path (path +:+ ".old");
                      COpenFile path (Z.lor O_RDWR (Z.lor O_CREATE O_TRUNC)) 0x1b6]
                  ++ rest) /\
  (forall c, files w !! path = Some c -> c <> "" -> faults w = [] ->
     exists w', initPanicFile path w = (None, w') /\
       calls w' = calls w ++
         [COpenFile path (Z.lor O_CREATE (Z.lor O_WRONLY O_APPEND)) 0;
          CStat (nextFd w); CClose (nextFd w);
          CRename path (path +:+ ".old");
          COpenFile path (Z.lor O_RDWR (Z.lor O_CREATE O_TRUNC)) 0x1b6;
          CGetStdHandle STD_ERROR_HANDLE;
          CSetStdHandle STD_ERROR_HANDLE (nextFd w + 1)] /\
       files w' !! (path +:+ ".old") = Some c /\
       files w' !! path = Some "" /\
       handles w' !! nextFd w = None /\
       handles w' !! (nextFd w + 1) = Some path /\
       panicFile w' = Some {| Fd := nextFd w + 1; Name := path |}) /\
  (forall w', initPanicFile path w = (None, w') ->
     oldStderr w' = stdErr w /\ stdErr w' = fdOf (panicFile w') /\
     is_Some (panicFile w') /\
     exists pre, calls w' = calls w ++ pre ++
       [CGetStdHandle STD_ERROR_HANDLE;
        CSetStdHandle STD_ERROR_HANDLE (fdOf (panicFile w'))]).
Proof.
  split; [|split].
  - intros f w1 size w2. apply initPanicFile_rotation_calls.
  - intros c. apply initPanicFile_rotation.
  - intros w'. apply initPanicFile_ok.
Qed.

(** C8: [removePanicFile] looks at the size of the panic file. At size
    zero it calls SetStdHandle with the saved handle, closes the file
    and removes it, in this order, and on a host that refuses none of
    these calls the standard error handle is the saved one again, the
    file is closed and it is gone. At another size, and when the size
    cannot be had, it does nothing more: files, handles and the standard
    error handle stay as they are. *)
Theorem removePanicFile_spec (w : world) (f : File) (w1 : world) :
  panicFile w = Some f ->
  (forall size, Stat (Some f) w = (inl size, w1) ->
     (size = 0 ->
       exists w', removePanicFile w = (tt, w') /\
         calls w' = calls w1 ++ [CSetStdHandle STD_ERROR_HANDLE (oldStderr w);
                                 CClose (Fd f); CRemove (Name f)] /\
         (faults w1 = [] ->
            stdErr w' = oldStderr w /\ handles w' !! Fd f = None /\
            files w' !! Name f = None)) /\
     (size <> 0 ->
        removePanicFile w = (tt, w1) /\ files w1 = files w /\
        handles w1 = handles w /\ stdErr w1 = stdErr w)) /\
  (forall e, Stat (Some f) w = (inr e, w1) ->
     removePanicFile w = (tt, w1) /\ files w1 = files w /\
     handles w1 = handles w /\ stdErr w1 = stdErr w).
Proof.
  intros Hpf. split.
  - intros size HS.
    destruct (Stat_frame _ _ _ _ HS) as (Hfi & Hha & Hse & Hos & Hp1).
    unfold removePanicFile, mbind, M_bind, gets. rewrite Hpf, HS.
    cbv beta iota zeta. split.
    + intros ->. change (0 =? 0) with true. cbv beta iota zeta. rewrite Hos.
      destruct (setStdHandleCall _ _ w1) as [r2 w2] eqn:H2.
      destruct (Close _ w2) as [r3 w3] eqn:H3.
      destruct (Remove _ w3) as [r4 w4] eqn:H4.
      apply setStdHandleCall_spec in H2 as [C2 Q2].
      apply Close_spec in H3 as [C3 Q3].
      apply Remove_spec in H4 as [C4 Q4].
      exists w4. split; [reflexivity|]. split.
      * rewrite C4, C3, C2. now rewrite <- !app_assoc.
      * intros Hq. destruct (Q2 Hq) as (F2 & S2 & A2 & B2).
        destruct (Q3 F2) as (F3 & S3 & A3 & B3).
        destruct (Q4 F3) as (F4 & S4 & A4 & B4).
        repeat split; congruence.
    + intros Hne. apply Z.eqb_neq in Hne. rewrite Hne. auto.
  - intros e HS.
    destruct (Stat_frame _ _ _ _ HS) as (Hfi & Hha & Hse & Hos & Hp1).
    unfold removePanicFile, mbind, M_bind, gets. rewrite Hpf, HS. auto.
Qed.

Lemma initPanicFile_spec_witness :
  exists w', initPanicFile Examples.panicPath Examples.world_old = (None, w') /\
    files w' !! (Examples.panicPath +:+ ".old") = Some "panic: boom" /\
    files w' !! Examples.panicPath = Some "" /\
    oldStderr w' = 3 /\ stdErr w' = 101.
Proof.
  destruct (initPanicFile_spec Examples.panicPath Examples.world_old)
    as (_ & H1 & H2).
  destruct (H1 "panic: boom" eq_refl ltac:(discriminate) eq_refl)
    as (w' & Hw & _ & Ho & Hn & _ & _ & Hp).
  destruct (H2 w' Hw) as (A & B & _). rewrite Hp in B.
  exists w'. auto.
Defined.

Lemma removePanicFile_spec_witness :
  (exists w', removePanicFile (Examples.world_open "") = (tt, w') /\
     stdErr w' = 3 /\ handles w' !! 100 = None /\
     files w' !! Examples.panicPath = None) /\
  (exists w1, removePanicFile (Examples.world_open "boom") = (tt, w1) /\
     files w1 = files (Examples.world_open "boom") /\ stdErr w1 = 100).
Proof.
  pose (f := {| Fd := 100; Name := Examples.panicPath |}).
  split.
  - destruct (removePanicFile_spec (Examples.world_open "") f
                (Stat (Some f) (Examples.world_open "")).2 eq_refl) as [H _].
    destruct (H 0 eq_refl) as [H0 _].
    destruct (H0 eq_refl) as (w' & Hw & _ & He).
    exists w'. split; [exact Hw|]. apply He. reflexivity.
  - destruct (removePanicFile_spec (Examples.world_open "boom") f
                (Stat (Some f) (Examples.world_open "boom")).2 eq_refl) as [H _].
    destruct (H 4 eq_refl) as [_ H0].
    destruct (H0 ltac:(discriminate)) as (Hw & Hf & _ & Hs).
    eexists. split; [exact Hw|]. split; [exact Hf | exact Hs].
Defined.

End PanicFileFacts.

(** * Facts about the service run *)

Module ServiceFacts.
Import OS PanicFile Service System Points.

Lemma observe_app tr1 tr2 : observe (tr1 ++ tr2) = obs_app (observe tr1) (observe tr2).
Proof.
  unfold observe, obs_app, statuses, handled, passed, exits, beginResults, startedResults.
  simpl. now rewrite !omap_app.
Qed.

Lemma step_trace m s s' :
  step m s = Some s' -> exists evs, trace s' = trace s ++ evs.
Proof.
  assert (Hl : forall p s p' s1, local p s = Some (p', s1) ->
                 exists evs, trace s1 = trace s ++ evs).
  { intros p s0 p' s1. destruct s0 as [mn sv hd ww rqs tr].
    unfold local; simpl. intros H.
    destruct p; repeat (simplify_option_eq || case_match); simpl; eauto;
      exists []; now rewrite app_nil_r. }
  unfold step. intros H. destruct m.
  - destruct (local (main s) s) as [[p s1]|] eqn:Hp; simplify_option_eq.
    apply Hl in Hp. exact Hp.
  - destruct (svc s) as [q|]; simplify_option_eq.
    destruct (local q s) as [[p s1]|] eqn:Hp; simplify_option_eq.
    apply Hl in Hp. exact Hp.
  - repeat (simplify_option_eq || case_match); simpl; eauto.
  - repeat (simplify_option_eq || case_match); simpl; eauto.
Qed.

Opaque initPanicFile removePanicFile.

Lemma observe_snoc tr e : observe (tr ++ [e]) = obs_app (observe tr) (observe [e]).
Proof. apply observe_app. Qed.

Local Arguments control : simpl never.

Lemma sReq_cases name hst err c :
  serves hst ->
  sReq name hst err c =
    if Cmd c =? SERVICE_CONTROL_PARAMCHANGE then
      Note ReloadConfig (sD2 name hst err)
    else if Cmd c =? Interrogate then
      SendStatus (CurrentStatus c) (sD2 name hst err)
    else if (Cmd c =? Stop) || (Cmd c =? Shutdown) then
      SendStatus {| StatusState := StopPending; Accepts := 0 |}
                 (Note StopDaemon (sD2 name hst err))
    else sD2 name hst err.
Proof.
  intros [Hre Hia]. destruct hst as [ia eo re rr]; simpl in *; subst re.
  destruct Hia as [-> | [-> [l ->]]].
  all: unfold sReq; simpl; unfold control.
  all: destruct (Cmd c =? SERVICE_CONTROL_PARAMCHANGE); [reflexivity|].
  all: destruct (Cmd c =? Interrogate); [reflexivity|].
  all: destruct ((Cmd c =? Stop) || (Cmd c =? Shutdown)); reflexivity.
Qed.

Ltac fin Ho :=
  simpl;
  first [ reflexivity | lia | assumption
        | rewrite observe_snoc, Ho; unfold obs_app, mkobs; simpl;
          rewrite ?app_nil_r; reflexivity ].

Ltac by_A Ho k := solve [eapply (I_A _ _ _ _ _ k); fin Ho].
Ltac by_B Ho k := solve [eapply (I_B _ _ _ _ _ k); fin Ho].
Ltac by_C Ho k := solve [eapply (I_C _ _ _ _ _ k); fin Ho].

Lemma Inv_step name hst err reqs0 m s s' :
  serves hst -> Inv name hst err reqs0 s -> step m s = Some s' ->
  Inv name hst err reqs0 s'.
Proof.
  intros Hserves HI Hstep. pose proof Hserves as [Hre Hia].
  destruct hst as [ia eo re rr]; simpl in Hre, Hia; subst re.
  destruct s as [mn sv hd ww rqs tr].
  destruct HI as [k Hk Hm Hs Hh Ho Hr|k Hk Hm Hs Hh Ho Hr|k Hk Hm Hs Hh Ho Hr
                 |Hm Hs Hh Ho Hr|e Hm Hs Hh Ho|e HP
                 |k q pending sts hs Hk Hm Hs HD Hh Ho Hsts Hr
                 |k hs Hk Hm Hs Hh Ho Hr|k hs Hk Hm Hs Hh Ho Hr];
    simpl in *; subst.
  - (* A *)
    assert (k = 0 \/ k = 1 \/ k = 2 \/ k = 3 \/ k = 4)%nat as Hc by lia.
    destruct Hia as [-> | [-> [l ->]]]; 
    destruct Hc as [->|[->|[->|[->| ->]]]]; 
    destruct m; simpl in Hstep; try discriminate Hstep.
    all: injection Hstep as <-.
    all: first [by_A Ho 1%nat | by_A Ho 2%nat | by_A Ho 3%nat | by_A Ho 4%nat
               | by_B Ho 0%nat].
  - (* B *)
    assert (k = 0 \/ k = 1)%nat as Hc by lia.
    destruct Hia as [-> | [-> [l ->]]]; 
    destruct Hc as [->| ->]; 
    destruct m; simpl in Hstep; try discriminate Hstep.
    all: injection Hstep as <-.
    all: first [by_B Ho 1%nat | by_C Ho 0%nat].
  - (* C *)
    assert (k = 0 \/ k = 1 \/ k = 2)%nat as Hc by lia.
    destruct Hia as [-> | [-> [l ->]]]; 
    destruct Hc as [->|[->| ->]]; 
    destruct m; simpl in Hstep; try discriminate Hstep.
    all: try (injection Hstep as <-; first [by_C Ho 1%nat | by_C Ho 2%nat]).
    all: match type of Hstep with
         | context [let '(_, _) := ?c in _] => destruct c as [[e|] w']
         end; injection Hstep as <-.
    all: first [ solve [eapply (I_X _ _ _ _ _ e); fin Ho]
               | solve [eapply I_C3; fin Ho] ].
  - (* C3 *)
    destruct Hia as [-> | [-> [l ->]]]; 
    destruct m; simpl in Hstep; try discriminate Hstep.
    all: injection Hstep as <-.
    all: eapply (I_D _ _ _ _ _ 0%nat _ [RUN] [SP] []); try apply svcD_start; fin Ho.
  - (* X *)
    destruct Hia as [-> | [-> [l ->]]]; 
    destruct m; simpl in Hstep; try discriminate Hstep.
    all: injection Hstep as <-.
    all: eapply (I_P _ _ _ _ _ e); simpl; unfold startedResults;
      rewrite omap_app; simpl; apply in_or_app; right; now left.
  - (* P *)
    destruct (step_trace _ _ _ Hstep) as [evs Hevs]. simpl in Hevs.
    eapply (I_P _ _ _ _ _ e). rewrite Hevs. unfold startedResults in *.
    rewrite omap_app. apply in_or_app. now left.
  - (* D *)
    assert (k = 0 \/ k = 1 \/ k = 2 \/ k = 3)%nat as Hc by lia.
    destruct m.
    + (* Main *)
      destruct Hia as [-> | [-> [l ->]]]; 
      destruct Hc as [->|[->|[->| ->]]]; simpl in Hstep; try discriminate Hstep.
      all: injection Hstep as <-.
      all: first [ solve [eapply (I_D _ _ _ _ _ 1%nat q pending sts hs); fin Ho]
                 | solve [eapply (I_D _ _ _ _ _ 2%nat q pending sts hs); fin Ho]
                 | solve [eapply (I_D _ _ _ _ _ 3%nat q pending sts hs); fin Ho] ].
    + (* Svc *)
      destruct HD as [ | | | | c | ].
      * destruct Hia as [-> | [-> [l ->]]]; simpl in Hstep; injection Hstep as <-.
        all: eapply (I_D _ _ _ _ _ k _ [] (sts ++ [RUN]) hs);
          [assumption | reflexivity | reflexivity | apply svcD_running | reflexivity
          | fin Ho | now rewrite app_nil_r | reflexivity].
      * destruct Hia as [-> | [-> [l ->]]]; simpl in Hstep; injection Hstep as <-.
        all: eapply (I_D _ _ _ _ _ k _ [] sts hs);
          [assumption | reflexivity | reflexivity | apply svcD_loop | reflexivity
          | fin Ho | assumption | reflexivity].
      * destruct Hia as [-> | [-> [l ->]]]; simpl in Hstep; injection Hstep as <-.
        all: eapply (I_D _ _ _ _ _ k _ [] sts hs);
          [assumption | reflexivity | reflexivity | apply svcD_select | reflexivity
          | fin Ho | assumption | reflexivity].
      * destruct Hia as [-> | [-> [l ->]]]; simpl in Hstep; discriminate Hstep.
      * rewrite (sReq_cases _ _ _ _ Hserves) in Hstep. unfold reply in Hsts.
        destruct Hia as [-> | [-> [l ->]]];
        (destruct (Cmd c =? SERVICE_CONTROL_PARAMCHANGE) eqn:E1;
          [|destruct (Cmd c =? Interrogate) eqn:E2;
            [|destruct ((Cmd c =? Stop) || (Cmd c =? Shutdown)) eqn:E3]]);
        simpl in Hstep; injection Hstep as <-.
        all: first
          [ solve [eapply (I_D _ _ _ _ _ k _ [] sts hs);
             [assumption | reflexivity | reflexivity | apply svcD_loop | reflexivity
             | fin Ho | assumption | reflexivity]]
          | solve [eapply (I_D _ _ _ _ _ k _ [] (sts ++ [CurrentStatus c]) hs);
             [assumption | reflexivity | reflexivity | apply svcD_loop | reflexivity
             | fin Ho | now rewrite app_nil_r | reflexivity]]
          | solve [eapply (I_D _ _ _ _ _ k _ []
                     (sts ++ [{| StatusState := StopPending; Accepts := 0 |}]) hs);
             [assumption | reflexivity | reflexivity | apply svcD_stopping
             | reflexivity | fin Ho | now rewrite app_nil_r | reflexivity]]
          | solve [eapply (I_D _ _ _ _ _ k _ [] sts hs);
             [assumption | reflexivity | reflexivity | apply svcD_select | reflexivity
             | fin Ho | assumption | reflexivity]] ].
      * destruct Hia as [-> | [-> [l ->]]]; simpl in Hstep; injection Hstep as <-.
        all: eapply (I_D _ _ _ _ _ k _ [] sts hs);
          [assumption | reflexivity | reflexivity | apply svcD_loop | reflexivity
          | fin Ho | assumption | reflexivity].
    + (* Meet *)
      destruct HD as [ | | | | c | ];
        try rewrite (sReq_cases _ _ _ _ Hserves) in Hstep;
        destruct Hia as [-> | [-> [l ->]]];
        destruct Hc as [->|[->|[->| ->]]];
        try (destruct (Cmd c =? SERVICE_CONTROL_PARAMCHANGE) eqn:E1;
             [|destruct (Cmd c =? Interrogate) eqn:E2;
               [|destruct ((Cmd c =? Stop) || (Cmd c =? Shutdown)) eqn:E3]]);
        simpl in Hstep; try discriminate Hstep.
      all: injection Hstep as <-.
      all: rewrite app_nil_r in Hsts; subst sts.
      all: eapply (I_E _ _ _ _ _ 0%nat hs); fin Ho.
    + (* Request *)
      destruct HD as [ | | | | c | ];
        try rewrite (sReq_cases _ _ _ _ Hserves) in Hstep;
        destruct Hia as [-> | [-> [l ->]]];
        try (destruct (Cmd c =? SERVICE_CONTROL_PARAMCHANGE) eqn:E1;
             [|destruct (Cmd c =? Interrogate) eqn:E2;
               [|destruct ((Cmd c =? Stop) || (Cmd c =? Shutdown)) eqn:E3]]);
        simpl in Hstep; try discriminate Hstep.
      all: destruct rqs as [|c rest]; [discriminate Hstep|].
      all: injection Hstep as <-.
      all: eapply (I_D _ _ _ _ _ k (sReq _ _ _ c) (reply c) sts (hs ++ [c]));
        [assumption | reflexivity | | apply svcD_request | reflexivity
        | fin Ho | | simpl; now rewrite <- app_assoc].
      all: try reflexivity.
      all: rewrite flat_map_app; simpl; rewrite app_nil_r.
      all: rewrite app_nil_r in Hsts; now rewrite Hsts.
  - (* E *)
    assert (k = 0 \/ k = 1 \/ k = 2)%nat as Hc by lia.
    destruct Hia as [-> | [-> [l ->]]];
      destruct err as [e|];
      destruct Hc as [->|[->| ->]];
      destruct m; simpl in Hstep; try discriminate Hstep.
    all: try match type of Hstep with
         | context [let '(_, _) := ?c in _] => destruct c as [r w']
         end.
    all: injection Hstep as <-.
    all: first [ solve [eapply (I_E _ _ _ _ _ 1%nat hs); fin Ho]
               | solve [eapply (I_E _ _ _ _ _ 2%nat hs); fin Ho]
               | solve [eapply (I_F _ _ _ _ _ 0%nat hs); fin Ho] ].
  - (* F *)
    assert (k = 0 \/ k = 1)%nat as Hc by lia.
    destruct Hia as [-> | [-> [l ->]]];
      destruct err as [e|];
      destruct Hc as [->| ->];
      destruct m; simpl in Hstep; try discriminate Hstep.
    all: injection Hstep as <-.
    all: solve [eapply (I_F _ _ _ _ _ 1%nat hs); fin Ho].
Qed.

Lemma Inv_run name hst err reqs0 ms s s' :
  serves hst -> Inv name hst err reqs0 s -> run ms s = Some s' ->
  Inv name hst err reqs0 s'.
Proof.
  intros Hs. revert s. induction ms as [|m ms IH]; simpl; intros s HI H.
  - now injection H as <-.
  - destruct (step m s) as [s1|] eqn:Hstep; [|discriminate].
    simpl in H. eauto using Inv_step.
Qed.

Lemma Inv_boot name hst err w reqs0 :
  Inv name hst err reqs0
      (boot (runFlags name) hst [CallStarted; CallStopped err] w reqs0).
Proof. apply (I_A _ _ _ _ _ 0%nat); simpl; first [reflexivity | lia]. Qed.

Ltac explore H :=
  match type of H with
  | run ?ms _ = Some _ =>
    destruct ms as [|[] ms]; simpl in H; try discriminate H;
    [ injection H as <-; simpl; intuition discriminate
    | try (unfold set_main, set_svc, set_hdl, set_w, set_requests, emit in H;
           simpl in H; explore H) .. ]
  end.

Lemma begin_fails name hst script w reqs ms s :
  ~ serves hst ->
  run ms (boot (runFlags name) hst script w reqs) = Some s ->
  ~ In (false, None) (beginResults (trace s)).
Proof.
  intros Hbad H.
  assert (Hcase : (exists e, IsAnInteractiveSession hst = inr e) \/
                  (IsAnInteractiveSession hst = inl false /\
                   exists e, eventlogOpen hst = inr e) \/
                  ((IsAnInteractiveSession hst = inl true \/
                    IsAnInteractiveSession hst = inl false /\
                    exists l, eventlogOpen hst = inl l) /\
                   exists e, runError hst = Some e)).
  { destruct hst as [[[|]|e] [l|e1] [e2|] rr]; simpl in *; eauto 10.
    all: exfalso; apply Hbad; split; simpl; eauto. }
  clear Hbad. destruct hst as [ia eo re rr]; simpl in Hcase.
  destruct Hcase as [[e ->]|[[-> [e ->]]|[[->|[-> [l ->]]] [e ->]]]].
  all: unfold boot, daemonMain in H; simpl in H.
  all: explore H.
Qed.

Lemma serves_dec hst : serves hst \/ ~ serves hst.
Proof.
  unfold serves. destruct hst as [[[|]|e] [l|e1] [e2|] rr]; simpl; eauto 10.
  all: right; intros [H1 H2]; try discriminate H1.
  all: destruct H2 as [H2|[H2 [l' H3]]]; discriminate.
Qed.

Lemma service_run name hst err w reqs ms s :
  run ms (boot (runFlags name) hst [CallStarted; CallStopped err] w reqs) = Some s ->
  beginResults (trace s) = [(false, None)] ->
  startedResults (trace s) = [None] ->
  passed (trace s) `prefix_of` handshakes hst err /\
  (main s = Ret tt ->
   statuses (trace s) = SP :: RUN :: flat_map reply (handled (trace s)) /\
   exits (trace s) = [exitOf (isErr err)] /\
   passed (trace s) = handshakes hst err /\
   exists rest, reqs = handled (trace s) ++ rest).
Proof.
  intros Hrun Hb Hst.
  destruct (serves_dec hst) as [Hs|Hbad].
  2:{ exfalso. apply (begin_fails _ _ _ _ _ _ _ Hbad Hrun). rewrite Hb. now left. }
  pose proof (Inv_run _ _ _ _ _ _ _ Hs (Inv_boot name hst err w reqs) Hrun) as HI.
  pose proof Hs as [Hre Hia].
  destruct hst as [ia eo re rr]; simpl in Hre, Hia; subst re.
  destruct s as [mn sv hd ww rqs tr]. simpl in *.
  destruct HI as [k Hk Hm Hsv Hh Ho Hr|k Hk Hm Hsv Hh Ho Hr|k Hk Hm Hsv Hh Ho Hr
                 |Hm Hsv Hh Ho Hr|e Hm Hsv Hh Ho|e HP
                 |k q pending sts hs Hk Hm Hsv HD Hh Ho Hsts Hr
                 |k hs Hk Hm Hsv Hh Ho Hr|k hs Hk Hm Hsv Hh Ho Hr];
    simpl in *; subst;
    try (injection Ho as Ho1 Ho2 Ho3 Ho4 Ho5 Ho6).
  all: try congruence.
  all: try (destruct k; congruence).
  - (* P *) rewrite Hst in HP. destruct HP as [HP|[]]. discriminate HP.
  - (* D *)
    destruct k as [|k]; [congruence|].
    split.
    + rewrite Ho3. now exists [EvTosvc (isErr err); EvFromsvc (rr (exitOf (isErr err)))].
    + intros Hm. exfalso.
      assert (k = 0 \/ k = 1 \/ k = 2)%nat as Hc by lia.
      destruct Hia as [-> | [-> [l ->]]]; destruct Hc as [->|[->| ->]];
        discriminate Hm.
  - (* E *)
    split.
    + rewrite Ho3. now exists [EvFromsvc (rr (exitOf (isErr err)))].
    + intros Hm. exfalso. destruct Hia as [-> | [-> [l ->]]]; discriminate Hm.
  - (* F *)
    split.
    + rewrite Ho3. now exists [].
    + intros Hm. rewrite Ho1, Ho2, Ho3, Ho4. repeat split. now exists rqs.
Qed.

Lemma run_cons m ms s s1 :
  step m s = Some s1 -> run (m :: ms) s = run ms s1.
Proof. intros H. simpl. now rewrite H. Qed.

(** One step of a run, with what the host answers in [Hw] and [Hr]. *)
Ltac advance Hw Hr :=
  erewrite run_cons;
  [| unfold step; simpl; rewrite ?Hw, ?Hr;
     unfold set_main, set_svc, set_hdl, set_w, set_requests, emit; simpl;
     reflexivity ].

(** With a host on which begin succeeds and a panic file that can be
    installed, the run of begin, started and stopped comes to its end:
    no goroutine is left waiting. *)
Lemma service_completes name hst err w reqs :
  serves hst ->
  (initPanicFile (filepathJoin (ConfigRoot w) "panic.log") w).1 = None ->
  exists s,
    run Examples.moves_plain
        (boot (runFlags name) hst [CallStarted; CallStopped err] w reqs) = Some s /\
    beginResults (trace s) = [(false, None)] /\
    startedResults (trace s) = [None] /\
    main s = Ret tt.
Proof.
  intros [Hre Hia] Hi.
  destruct (initPanicFile (filepathJoin (ConfigRoot w) "panic.log") w)
    as [r w1] eqn:Hw. simpl in Hi. subst r.
  destruct (removePanicFile w1) as [u w2] eqn:Hr.
  assert (Hr' : (removePanicFile ≫= λ _ : (), mret None) w1 = (@None error, w2)).
  { unfold mbind, M_bind. now rewrite Hr. }
  assert (Hw' : (gets ConfigRoot
                   ≫= λ root : string, initPanicFile (filepathJoin root "panic.log")) w
                = (None, w1)) by exact Hw.
  destruct hst as [ia eo re rr]; simpl in Hre, Hia; subst re.
  destruct Hia as [-> | [-> [l ->]]]; destruct err as [e|].
  all: eexists; split;
    [ unfold Examples.moves_plain, boot, daemonMain; simpl initService;
      do 22 advance Hw' Hr'; reflexivity
    | split; [reflexivity|]; split; reflexivity ].
Qed.

(** What a status in a reply of Execute is. *)
Lemma reply_cases (c : ChangeRequest) (st : Status) :
  In st (reply c) ->
  Cmd c = Interrogate /\ st = CurrentStatus c \/
  (Cmd c = Stop \/ Cmd c = Shutdown) /\
  st = {| StatusState := StopPending; Accepts := 0 |}.
Proof.
  unfold reply.
  destruct (Cmd c =? SERVICE_CONTROL_PARAMCHANGE); [intros []|].
  destruct (Z.eqb_spec (Cmd c) Interrogate) as [E|_].
  { intros [<-|[]]. now left. }
  destruct (Z.eqb_spec (Cmd c) Stop) as [E1|_]; simpl.
  { intros [<-|[]]. right. auto. }
  destruct (Z.eqb_spec (Cmd c) Shutdown) as [E2|_]; simpl.
  { intros [<-|[]]. right. auto. }
  intros [].
Qed.

(** C1, amended: in every run of begin with the run-service flag alone,
    started and stopped(nil) in which begin returns (false, nil), started
    returns nil and stopped has returned, Execute has sent on [s] the
    status StartPending, then Running, then its reply to each request
    that it took from the host in the loop, in their order (the current
    status of the request for Interrogate, StopPending for Stop and
    Shutdown, nothing for the others), and no other status; it has
    returned (false, 0). So every status after Running answers a request
    of the host: it is the status that an Interrogate request carries,
    or StopPending for a Stop or Shutdown request; with no request of
    the host the statuses are StartPending and Running. Such a run
    exists whenever the host lets begin succeed and the panic file can
    be installed. *)
Theorem Execute_reports name hst w reqs :
  (forall ms s,
     run ms (boot (runFlags name) hst [CallStarted; CallStopped None] w reqs)
       = Some s ->
     beginResults (trace s) = [(false, None)] ->
     startedResults (trace s) = [None] ->
     main s = Ret tt ->
     statuses (trace s) = SP :: RUN :: flat_map reply (handled (trace s)) /\
     (exists rest, reqs = handled (trace s) ++ rest) /\
     exits (trace s) = [(false, 0)] /\
     (forall st, In st (drop 2 (statuses (trace s))) ->
        exists c, In c reqs /\
          (Cmd c = Interrogate /\ st = CurrentStatus c \/
           (Cmd c = Stop \/ Cmd c = Shutdown) /\
           st = {| StatusState := StopPending; Accepts := 0 |})) /\
     (reqs = [] -> statuses (trace s) = [SP; RUN])) /\
  (serves hst ->
   (initPanicFile (filepathJoin (ConfigRoot w) "panic.log") w).1 = None ->
   exists ms s,
     run ms (boot (runFlags name) hst [CallStarted; CallStopped None] w reqs)
       = Some s /\
     beginResults (trace s) = [(false, None)] /\
     startedResults (trace s) = [None] /\
     main s = Ret tt).
Proof.
  split.
  - intros ms s Hrun Hb Hst Hm.
    destruct (service_run _ _ _ _ _ _ _ Hrun Hb Hst) as [_ H].
    destruct (H Hm) as (H1 & H2 & _ & [rest H4]).
    split; [exact H1|]. split; [now exists rest|]. split; [exact H2|]. split.
    + intros st Hin. rewrite H1 in Hin. simpl in Hin.
      apply in_flat_map in Hin as (c & Hc & Hst').
      exists c. split; [rewrite H4; apply in_or_app; now left|].
      now apply reply_cases.
    + intros ->. symmetry in H4. apply app_eq_nil in H4 as [H4 _].
      now rewrite H1, H4.
  - intros Hs Hi. exists Examples.moves_plain.
    apply service_completes; assumption.
Qed.

Import Examples.

(** C1 as the specification has it fails: when the host sends no
    request, Execute reports StartPending and Running and nothing else
    before it returns (false, 0). *)
Lemma Execute_reports_no_stop :
  let s0 := boot flags_run host_service script_ok world_old [] in
  let s := final moves_plain s0 in
  run moves_plain s0 = Some s /\
  beginResults (trace s) = [(false, None)] /\
  startedResults (trace s) = [None] /\
  main s = Ret tt /\
  map StatusState (statuses (trace s)) = [StartPending; Running] /\
  map StatusState (statuses (trace s))
    <> [StartPending; Running; StopPending; Stopped].
Proof.
  vm_compute. repeat split; discriminate.
Qed.

Lemma Execute_reports_witness :
  let s := final moves_stop (boot flags_run host_service script_ok world_old
                               [interrogate; stop]) in
  (map StatusState (statuses (trace s))
     = [StartPending; Running; Running; StopPending] /\
   statuses (trace s) = SP :: RUN :: flat_map reply (handled (trace s)) /\
   (exists rest, [interrogate; stop] = handled (trace s) ++ rest) /\
   exits (trace s) = [(false, 0)]) /\
  (let s0 := final moves_plain
                   (boot flags_run host_service script_ok world_old []) in
   statuses (trace s0) = [SP; RUN]) /\
  exists ms s',
    run ms (boot flags_run host_service script_ok world_old [interrogate; stop])
      = Some s' /\
    beginResults (trace s') = [(false, None)] /\
    startedResults (trace s') = [None] /\
    main s' = Ret tt.
Proof.
  destruct (Execute_reports "docker" host_service world_old [interrogate; stop])
    as [H1 H2].
  destruct (Execute_reports "docker" host_service world_old []) as [H3 _].
  split; [|split].
  - split; [vm_compute; reflexivity|].
    destruct (H1 moves_stop
                (final moves_stop
                       (boot flags_run host_service script_ok world_old
                             [interrogate; stop]))
                ltac:(vm_compute; reflexivity) ltac:(vm_compute; reflexivity)
                ltac:(vm_compute; reflexivity) ltac:(vm_compute; reflexivity))
      as (A & B & C & _).
    split; [exact A|]. split; [exact B | exact C].
  - destruct (H3 moves_plain
                (final moves_plain
                       (boot flags_run host_service script_ok world_old []))
                ltac:(vm_compute; reflexivity) ltac:(vm_compute; reflexivity)
                ltac:(vm_compute; reflexivity) ltac:(vm_compute; reflexivity))
      as (_ & _ & _ & _ & E).
    exact (E eq_refl).
  - apply H2.
    + split; [reflexivity|]. right. split; [reflexivity|]. now exists 7.
    + vm_compute. reflexivity.
Defined.

Lemma unbuf_bind A (p : prog A) :
  forall B (f : A -> prog B),
    unbuf p -> (forall a, unbuf (f a)) -> unbuf (bind p f).
Proof.
  induction p; intros B f Hp Hf; simpl in *; try tauto; eauto.
  - destruct Hp; split; eauto.
  - destruct Hp; split; eauto.
  - destruct Hp; split; eauto.
  - destruct Hp; split; eauto.
Qed.

Lemma unbuf_mbind A B (p : prog A) (f : A -> prog B) :
  unbuf p -> (forall a, unbuf (f a)) -> unbuf (p ≫= f).
Proof. apply unbuf_bind. Qed.

Lemma unbuf_prog_bind A B (p : prog A) (f : A -> prog B) :
  unbuf p -> (forall a, unbuf (f a)) -> unbuf (prog_bind A B f p).
Proof. apply unbuf_bind. Qed.

Ltac unbuf_tac :=
  repeat (simpl;
          match goal with
          | |- _ /\ _ => split
          | |- forall _, _ => intro
          | |- True => exact I
          | |- wellmade _ => repeat split
          | |- unbuf (bind _ _) => apply unbuf_bind
          | |- unbuf (_ ≫= _) => apply unbuf_mbind
          | |- unbuf (prog_bind _ _ _ _) => apply unbuf_prog_bind
          | |- unbuf (if ?b then _ else _) => destruct b
          | |- unbuf (match ?x with _ => _ end) => destruct x
          | H : unbuf ?p |- unbuf ?p => exact H
          end).

Lemma unbuf_control c : unbuf (control c).
Proof. unfold control. unbuf_tac. Qed.

Lemma unbuf_serviceGoroutine hst : unbuf (serviceGoroutine hst).
Proof.
  unfold serviceGoroutine, Run, Execute, loop.
  unbuf_tac; apply unbuf_control.
Qed.

Lemma unbuf_initService fl hst : unbuf (initService fl hst).
Proof.
  unfold initService. unbuf_tac; apply unbuf_serviceGoroutine.
Qed.

Lemma unbuf_daemon script : unbuf (daemon script).
Proof.
  induction script as [|[|e] rest IH]; unfold started, stopped in *; unbuf_tac.
Qed.

Lemma unbuf_daemonMain fl hst script : unbuf (daemonMain fl hst script).
Proof.
  unfold daemonMain.
  unbuf_tac; first [apply unbuf_initService | apply unbuf_daemon].
Qed.

Lemma rendezvous_boot fl hst script w reqs :
  rendezvous (boot fl hst script w reqs).
Proof.
  split; simpl; [apply unbuf_daemonMain | discriminate | discriminate | constructor].
Qed.

Lemma wellmade_blocks h :
  wellmade h ->
  (forall b, send (tosvc h) b = None) /\ (forall e, send (fromsvc h) e = None) /\
  recv (tosvc h) = None /\ recv (fromsvc h) = None /\ empty h = true.
Proof.
  destruct h as [[ct bt] [cf bf]]. unfold wellmade, send, recv, empty; simpl.
  intros (-> & -> & -> & ->). auto.
Qed.

Ltac five := split; [|split; [|split; [|split]]].

Lemma local_rendezvous p s p' s1 :
  unbuf p -> (forall h, hdl s = Some h -> wellmade h) -> Forall silent (trace s) ->
  svc s = None \/ (exists q, svc s = Some q /\ unbuf q) ->
  local p s = Some (p', s1) ->
  unbuf p' /\ (forall h, hdl s1 = Some h -> wellmade h) /\
  Forall silent (trace s1) /\
  (main s1 = main s) /\
  (svc s1 = svc s \/ exists q, svc s = None /\ svc s1 = Some q /\ unbuf q).
Proof.
  intros Hp Hh Ht Hs Hl. destruct s as [mn sv hd ww rqs tr]. simpl in *.
  assert (Hblock : forall h, hd = Some h -> 
     (forall b, send (tosvc h) b = None) /\ (forall e, send (fromsvc h) e = None) /\
     recv (tosvc h) = None /\ recv (fromsvc h) = None /\ empty h = true).
  { intros h Hh'. apply wellmade_blocks. auto. }
  assert (Hsil : forall e, silent e -> Forall silent (tr ++ [e])).
  { intros e He. apply Forall_app; split; [assumption|]. now constructor. }
  destruct p; simpl in *; try discriminate Hl;
    try (destruct hd as [h|]; [|discriminate Hl]; simpl in Hl;
         destruct (Hblock h eq_refl) as (H1 & H2 & H3 & H4 & _);
         rewrite ?H1, ?H2, ?H3, ?H4 in Hl; discriminate Hl).
  - destruct (m ww) as [r w']. injection Hl as <- <-. simpl. five; auto.
  - injection Hl as <- <-. simpl. five; auto.
    apply Hsil. split; discriminate.
  - injection Hl as <- <-. simpl. destruct Hp as [Hw Hk].
    five; auto. intros h' [= <-]. exact Hw.
  - destruct sv; [discriminate|]. injection Hl as <- <-. simpl.
    destruct Hp as [Hc Hk]. five; eauto.
  - injection Hl as <- <-. simpl. five; auto.
    apply Hsil. split; discriminate.
  - injection Hl as <- <-. simpl. destruct Hp as [Hb Hk]. five; auto.
    apply unbuf_prog_bind; [assumption|]. intros [b|]; simpl; auto.
Qed.

Lemma meet_unbuf p q p' q' e :
  unbuf p -> unbuf q -> meet p q = Some (p', q', e) ->
  unbuf p' /\ unbuf q' /\ silent e.
Proof.
  intros Hp Hq. unfold meet.
  destruct p; try discriminate; destruct q; try discriminate;
    intros [= <- <- <-]; simpl in *; repeat split; try tauto; try discriminate; auto.
  all: destruct Hq; auto.
Qed.

Lemma rendezvous_step m s s' :
  rendezvous s -> step m s = Some s' -> rendezvous s'.
Proof.
  intros [Hm Hs Hh Ht] Hstep. destruct m; unfold step in Hstep.
  - destruct (local (main s) s) as [[p s1]|] eqn:Hl; [|discriminate].
    injection Hstep as <-.
    assert (Hsv : svc s = None \/ (exists q, svc s = Some q /\ unbuf q)).
    { destruct (svc s) as [q|] eqn:E; eauto. }
    destruct (local_rendezvous _ _ _ _ Hm Hh Ht Hsv Hl) as (A & B & C & D & E).
    split; simpl; auto.
    intros q Hq. destruct E as [E|(q' & E1 & E2 & E3)]; [rewrite E in Hq; auto|].
    congruence.
  - destruct (svc s) as [q|] eqn:Eq; [|discriminate]. simpl in Hstep.
    destruct (local q s) as [[p s1]|] eqn:Hl; [|discriminate].
    injection Hstep as <-.
    assert (Hsv : svc s = None \/ (exists q, svc s = Some q /\ unbuf q)).
    { right. exists q. auto. }
    destruct (local_rendezvous _ _ _ _ (Hs q eq_refl) Hh Ht Hsv Hl) as (A & B & C & D & E).
    split; simpl; auto.
    + now rewrite D.
    + now intros q' [= <-].
  - destruct (hdl s) as [h|] eqn:Eh; [|discriminate]. simpl in Hstep.
    destruct (svc s) as [q|] eqn:Eq; [|discriminate]. simpl in Hstep.
    destruct (empty h); [|discriminate].
    assert (Hsil : forall e, silent e -> Forall silent (trace s ++ [e])).
    { intros e He. apply Forall_app; split; [assumption|]. now constructor. }
    destruct (meet (main s) q) as [[[p' q'] e]|] eqn:E1.
    + injection Hstep as <-.
      destruct (meet_unbuf _ _ _ _ _ Hm (Hs q eq_refl) E1) as (A & B & C).
      split; simpl; rewrite ?Eh; auto. now intros q0 [= <-].
    + destruct (meet q (main s)) as [[[q' p'] e]|] eqn:E2; [|discriminate].
      simpl in Hstep. injection Hstep as <-.
      destruct (meet_unbuf _ _ _ _ _ (Hs q eq_refl) Hm E2) as (A & B & C).
      split; simpl; rewrite ?Eh; auto. now intros q0 [= <-].
  - destruct (svc s) as [q|] eqn:Eq; [|discriminate]. simpl in Hstep.
    destruct q; try discriminate. destruct (requests s) as [|c rest]; [discriminate|].
    injection Hstep as <-. pose proof (Hs _ eq_refl) as [Hkt Hkr].
    split; simpl; auto.
    + now intros q0 [= <-].
    + apply Forall_app; split; [assumption|]. repeat constructor; discriminate.
Qed.

Lemma rendezvous_run ms s s' :
  rendezvous s -> run ms s = Some s' -> rendezvous s'.
Proof.
  revert s. induction ms as [|m ms IH]; simpl; intros s HI H.
  - now injection H as <-.
  - destruct (step m s) as [s1|] eqn:Hstep; [|discriminate].
    simpl in H. eauto using rendezvous_step.
Qed.

Lemma dside_mono hst R (p : prog R) : dside hst false p -> dside hst true p.
Proof.
  induction p; simpl; try tauto; eauto.
  all: try (destruct n as [| | | | | | | |[|[e'|]]| |]; auto).
  all: try (intros [H1 H2]; split; auto).
Qed.

Lemma dside_bind hst A (p : prog A) :
  forall B (f : A -> prog B) g,
    dside hst g p -> (forall a, dside hst false (f a)) -> dside hst g (bind p f).
Proof.
  induction p; intros B f g Hp Hf; simpl in *; try tauto; eauto.
  all: try (destruct g; auto using dside_mono).
  all: try (destruct n as [| | | | | | | |[|[e'|]]| |]; auto).
  all: try (destruct Hp; split; eauto).
Qed.

Lemma dside_initService fl hst : dside hst false (initService fl hst).
Proof.
  unfold initService.
  destruct (flUnregisterService fl), (flRegisterService fl), (flRunService fl);
    simpl; auto.
  all: destruct (IsAnInteractiveSession hst) as [[|]|e]; simpl; auto.
  all: try (destruct (eventlogOpen hst); simpl; auto).
  all: split; [reflexivity|]; intros [e'|]; simpl; auto.
Qed.

Lemma dside_daemon hst script : dside hst false (daemon script).
Proof.
  induction script as [|[|[e|]] rest IH]; simpl; auto.
  - intros [e|]; simpl; auto.
  - split; [reflexivity|]. intros _. now apply dside_mono.
Qed.

Lemma dside_daemonMain fl hst script : dside hst false (daemonMain fl hst script).
Proof.
  unfold daemonMain. apply dside_bind; [apply dside_initService|].
  intros [[|] [e|]]; simpl; auto.
  destruct (flRunService fl); simpl; auto using dside_daemon.
Qed.

Lemma received_app tr1 tr2 : received (tr1 ++ tr2) = received tr1 ++ received tr2.
Proof. apply omap_app. Qed.
Lemma statuses_app tr1 tr2 : statuses (tr1 ++ tr2) = statuses tr1 ++ statuses tr2.
Proof. apply omap_app. Qed.
Lemma exits_app tr1 tr2 : exits (tr1 ++ tr2) = exits tr1 ++ exits tr2.
Proof. apply omap_app. Qed.

Lemma hd_received_app tr evs b :
  hd_error (received tr) = Some b -> hd_error (received (tr ++ evs)) = Some b.
Proof.
  rewrite received_app. destruct (received tr); simpl; [discriminate | auto].
Qed.

Lemma mainSide_grow hst p tr evs :
  mainSide hst p tr -> mainSide hst p (tr ++ evs).
Proof.
  intros (g & Hd & Hg). exists g. split; [assumption|].
  intros Ht. destruct (Hg Ht) as [e He]. exists e. apply in_or_app. now left.
Qed.

Lemma step_main_frame m s s' :
  m = Svc \/ m = Request -> step m s = Some s' -> main s' = main s.
Proof.
  intros [-> | ->] H; unfold step in H.
  - destruct (svc s) as [q|]; [|discriminate]. simpl in H.
    destruct (local q s) as [[q' s1]|] eqn:Hl; [|discriminate]. injection H as <-.
    simpl. destruct s as [mn sv hd ww rqs tr]. unfold local in Hl. simpl in *.
    destruct q; repeat (simplify_option_eq || case_match); reflexivity.
  - repeat (simplify_option_eq || case_match). reflexivity.
Qed.

(** A note of the initiating context leaves what the trace shows of the
    other goroutine as it is. *)
Lemma svcSide_note hst q tr n :
  (forall b z, n <> HandlerReturned b z) ->
  svcSide hst q tr -> svcSide hst q (tr ++ [EvNote n]).
Proof.
  intros Hn H.
  assert (Hs : statuses (tr ++ [EvNote n]) = statuses tr).
  { rewrite statuses_app. simpl. apply app_nil_r. }
  assert (Hr : received (tr ++ [EvNote n]) = received tr).
  { rewrite received_app. simpl. apply app_nil_r. }
  assert (He : exits (tr ++ [EvNote n]) = exits tr).
  { rewrite exits_app. destruct n; simpl; try apply app_nil_r.
    exfalso. eapply Hn. reflexivity. }
  destruct H.
  - apply V_none; congruence.
  - eapply V_err; eauto; congruence.
  - apply V_B; auto; congruence.
  - apply V_X; auto; try congruence.
    destruct H4 as [e H4]. exists e. apply in_or_app. now left.
  - apply V_run. congruence.
Qed.

(** A goroutine at a send or a receive has no step of its own. *)
Ltac blocked Hstep Hh :=
  match goal with
  | hd : option handler |- _ =>
    destruct hd as [h|]; [|discriminate Hstep]; simpl in Hstep;
    destruct (wellmade_blocks h (Hh h eq_refl)) as (B1 & B2 & B3 & B4 & B5);
    rewrite ?B1, ?B2, ?B3, ?B4, ?B5 in Hstep; simpl in Hstep
  end.

Ltac obs_snoc :=
  simpl;
  first [ lia | assumption | reflexivity
        | rewrite ?statuses_app, ?received_app, ?exits_app; simpl;
          repeat match goal with
                 | H : statuses _ = _ |- _ => rewrite H
                 | H : received _ = _ |- _ => rewrite H
                 | H : exits _ = _ |- _ => rewrite H
                 end;
          simpl; rewrite ?app_nil_r; reflexivity
        | idtac ].

Lemma abort_main hst s s' :
  abortInv hst s -> step Main s = Some s' ->
  mainSide hst (main s') (trace s') /\ svcSide hst (svc s') (trace s').
Proof.
  intros [Hrv (g & Hd & Hg) Hsv] Hstep.
  pose proof (rv_hdl _ Hrv) as Hh.
  destruct s as [mn sv hd ww rqs tr]; simpl in *.
  unfold step in Hstep; simpl in Hstep.
  destruct mn; simpl in Hd; try contradiction; simpl in Hstep.
  - discriminate.
  - destruct (m ww) as [r w']. injection Hstep as <-. simpl.
    split; [exists g; auto | assumption].
  - injection Hstep as <-. simpl. split.
    + destruct n as [| | | | | | | |[|[e'|]]| |]; try contradiction;
        try (exists g; split; [assumption|]; intros Ht;
             destruct (Hg Ht) as [e He]; exists e; apply in_or_app; now left).
      exists true. split; [assumption|]. intros _. exists e'.
      apply in_or_app. right. now left.
    + apply svcSide_note; [|assumption].
      intros b z ->. contradiction.
  - injection Hstep as <-. simpl. split; [exists g; auto | assumption].
  - destruct sv; [discriminate|]. injection Hstep as <-. simpl.
    destruct Hd as [-> Hk]. split; [exists g; auto|].
    inversion Hsv; subst.
    + destruct (runError hst) as [e|] eqn:Hre.
      * apply (V_err hst e 0%nat); auto; lia.
      * apply (V_B hst 0%nat); auto; lia.
    + now apply V_run.
  - blocked Hstep Hh. discriminate.
  - blocked Hstep Hh. discriminate.
Qed.

Ltac byV c k := match goal with |- svcSide ?h _ _ => apply (c h k) end.
Ltac byVerr e k := match goal with |- svcSide ?h _ _ => apply (V_err h e k) end.

Lemma abort_svc hst s s' :
  abortInv hst s -> step Svc s = Some s' -> svcSide hst (svc s') (trace s').
Proof.
  intros [Hrv Hm Hsv] Hstep.
  pose proof (rv_hdl _ Hrv) as Hh.
  destruct (step_trace _ _ _ Hstep) as [evs Hevs].
  destruct s as [mn sv hd ww rqs tr]; simpl in *.
  unfold step in Hstep; simpl in Hstep.
  inversion Hsv as [tr0 H1 H2 H3|e k tr0 Hre Hk H1 H2 H3|k tr0 Hre Hk H1 H2 H3
                   |k tr0 Hre Hk H1 H2 H3 H4|q tr0 H1]; subst.
  - discriminate.
  - destruct hst as [ia eo re rr]; simpl in *; subst re.
    assert (k = 0 \/ k = 1)%nat as [-> | ->] by lia; simpl in Hstep.
    + blocked Hstep Hh. discriminate.
    + discriminate.
  - destruct hst as [ia eo re rr]; simpl in *; subst re.
    assert (k = 0 \/ k = 1 \/ k = 2)%nat as [-> |[-> | ->]] by lia; simpl in Hstep.
    + injection Hstep as <-. simpl. byV V_B 1%nat; obs_snoc.
    + blocked Hstep Hh. discriminate.
    + blocked Hstep Hh. discriminate.
  - destruct hst as [ia eo re rr]; simpl in *; subst re.
    assert (k = 0 \/ k = 1 \/ k = 2 \/ k = 3)%nat as [-> |[-> |[-> | ->]]] by lia;
      simpl in Hstep.
    + injection Hstep as <-. simpl. byV V_X 1%nat; obs_snoc.
      destruct H4 as [e H4]. exists e. apply in_or_app. now left.
    + injection Hstep as <-. simpl. byV V_X 2%nat; obs_snoc.
      destruct H4 as [e H4]. exists e. apply in_or_app. now left.
    + blocked Hstep Hh. discriminate.
    + discriminate.
  - apply V_run. rewrite Hevs. now apply hd_received_app.
Qed.

Lemma abort_request hst s s' :
  abortInv hst s -> step Request s = Some s' -> svcSide hst (svc s') (trace s').
Proof.
  intros [Hrv Hm Hsv] Hstep.
  destruct (step_trace _ _ _ Hstep) as [evs Hevs].
  destruct s as [mn sv hd ww rqs tr]; simpl in *.
  unfold step in Hstep; simpl in Hstep.
  inversion Hsv as [tr0 H1 H2 H3|e k tr0 Hre Hk H1 H2 H3|k tr0 Hre Hk H1 H2 H3
                   |k tr0 Hre Hk H1 H2 H3 H4|q tr0 H1]; subst.
  - discriminate.
  - destruct hst as [ia eo re rr]; simpl in *; subst re.
    assert (k = 0 \/ k = 1)%nat as [-> | ->] by lia; discriminate.
  - destruct hst as [ia eo re rr]; simpl in *; subst re.
    assert (k = 0 \/ k = 1 \/ k = 2)%nat as [-> |[-> | ->]] by lia; discriminate.
  - destruct hst as [ia eo re rr]; simpl in *; subst re.
    assert (k = 0 \/ k = 1 \/ k = 2 \/ k = 3)%nat as [-> |[-> |[-> | ->]]] by lia;
      discriminate.
  - apply V_run. rewrite Hevs. now apply hd_received_app.
Qed.

Lemma abort_meet hst s s' :
  abortInv hst s -> step Meet s = Some s' ->
  mainSide hst (main s') (trace s') /\ svcSide hst (svc s') (trace s').
Proof.
  intros [Hrv (g & Hd & Hg) Hsv] Hstep.
  destruct (step_trace _ _ _ Hstep) as [evs Hevs].
  destruct s as [mn sv hd ww rqs tr]; simpl in *.
  unfold step in Hstep; simpl in Hstep.
  destruct hd as [h|]; [|discriminate]. simpl in Hstep.
  destruct sv as [q|]; [|discriminate]. simpl in Hstep.
  destruct (empty h); [|discriminate].
  assert (Hgrow : forall e, g = true -> exists e0, In (stopNote e0) (tr ++ [e])).
  { intros e Ht. destruct (Hg Ht) as [e0 He]. exists e0. apply in_or_app. now left. }
  destruct mn; simpl in Hd; try contradiction; simpl in Hstep;
    try (destruct q; discriminate Hstep).
  - (* main sends on tosvc *)
    destruct Hd as [Hb Hk].
    inversion Hsv as [tr0 H1 H2 H3|e k0 tr0 Hre Hk0 H1 H2 H3|k0 tr0 Hre Hk0 H1 H2 H3
                     |k0 tr0 Hre Hk0 H1 H2 H3 H4|q0 tr0 H1]; subst.
    + destruct hst as [ia eo re rr]; simpl in *; subst re.
      assert (k0 = 0 \/ k0 = 1)%nat as [-> | ->] by lia; discriminate.
    + destruct hst as [ia eo re rr]; simpl in *; subst re.
      assert (k0 = 0 \/ k0 = 1 \/ k0 = 2)%nat as [-> |[-> | ->]] by lia;
        simpl in Hstep; try discriminate.
      injection Hstep as <-. simpl. split; [exists g; eauto|].
      destruct b.
      * byV V_X 0%nat; obs_snoc. apply Hgrow. auto.
      * apply V_run. rewrite received_app, H2. reflexivity.
    + destruct hst as [ia eo re rr]; simpl in *; subst re.
      assert (k0 = 0 \/ k0 = 1 \/ k0 = 2 \/ k0 = 3)%nat
        as [-> |[-> |[-> | ->]]] by lia; discriminate.
    + assert (Hr : hd_error (received (trace s')) = Some false).
      { rewrite Hevs. now apply hd_received_app. }
      destruct q; try discriminate; injection Hstep as <-; simpl in *;
        (split; [exists g; eauto | now apply V_run]).
  - (* main receives on fromsvc *)
    inversion Hsv as [tr0 H1 H2 H3|e k0 tr0 Hre Hk0 H1 H2 H3|k0 tr0 Hre Hk0 H1 H2 H3
                     |k0 tr0 Hre Hk0 H1 H2 H3 H4|q0 tr0 H1]; subst.
    + destruct hst as [ia eo re rr]; simpl in *; subst re.
      assert (k0 = 0 \/ k0 = 1)%nat as [-> | ->] by lia;
        simpl in Hstep; try discriminate.
      injection Hstep as <-. simpl. split; [exists g; eauto|].
      byVerr e 1%nat; obs_snoc.
    + destruct hst as [ia eo re rr]; simpl in *; subst re.
      assert (k0 = 0 \/ k0 = 1 \/ k0 = 2)%nat as [-> |[-> | ->]] by lia;
        simpl in Hstep; try discriminate.
      injection Hstep as <-. simpl. split; [exists g; eauto|].
      byV V_B 2%nat; obs_snoc.
    + destruct hst as [ia eo re rr]; simpl in *; subst re.
      assert (k0 = 0 \/ k0 = 1 \/ k0 = 2 \/ k0 = 3)%nat
        as [-> |[-> |[-> | ->]]] by lia; simpl in Hstep; try discriminate.
      injection Hstep as <-. simpl. split; [exists g; eauto|].
      byV V_X 3%nat; obs_snoc.
      destruct H4 as [e0 H4]. exists e0. apply in_or_app. now left.
    + assert (Hr : hd_error (received (trace s')) = Some false).
      { rewrite Hevs. now apply hd_received_app. }
      destruct q; try discriminate; injection Hstep as <-; simpl in *;
        (split; [exists g; eauto | now apply V_run]).
Qed.

Lemma abort_step hst m s s' :
  abortInv hst s -> step m s = Some s' -> abortInv hst s'.
Proof.
  intros HI Hstep. pose proof HI as [Hrv Hm Hsv].
  pose proof (rendezvous_step _ _ _ Hrv Hstep) as Hrv'.
  destruct m.
  - destruct (abort_main _ _ _ HI Hstep). now split.
  - split; [exact Hrv'| |].
    + rewrite (step_main_frame Svc s s' (or_introl eq_refl) Hstep).
      destruct (step_trace _ _ _ Hstep) as [evs ->]. now apply mainSide_grow.
    + eapply abort_svc; eauto.
  - destruct (abort_meet _ _ _ HI Hstep). now split.
  - split; [exact Hrv'| |].
    + rewrite (step_main_frame Request s s' (or_intror eq_refl) Hstep).
      destruct (step_trace _ _ _ Hstep) as [evs ->]. now apply mainSide_grow.
    + eapply abort_request; eauto.
Qed.

Lemma abort_run hst ms s s' :
  abortInv hst s -> run ms s = Some s' -> abortInv hst s'.
Proof.
  revert s. induction ms as [|m ms IH]; simpl; intros s HI H.
  - now injection H as <-.
  - destruct (step m s) as [s1|] eqn:Hstep; [|discriminate].
    simpl in H. eauto using abort_step.
Qed.

Lemma abort_boot fl hst script w reqs :
  abortInv hst (boot fl hst script w reqs).
Proof.
  split.
  - apply rendezvous_boot.
  - exists false. split; [apply dside_daemonMain | discriminate].
  - now apply V_none.
Qed.

(** C2, amended: in every run in which the first boolean that Execute
    receives on tosvc is [true], Execute has reported StartPending and
    nothing else, and after at most two steps of its own it has returned
    (true, 1) without any other report, so that Running is never
    reported. That boolean comes from a call stopped(err) with an error:
    [started] sends [false] or nothing. *)
Theorem Execute_aborts fl hst script w reqs ms s :
  run ms (boot fl hst script w reqs) = Some s ->
  hd_error (received (trace s)) = Some true ->
  statuses (trace s) = [SP] /\
  (exists e, In (EvNote (Calls (CallStopped (Some e)))) (trace s)) /\
  exists n s', (n <= 2)%nat /\ run (repeat Svc n) s = Some s' /\
               exits (trace s') = [(true, 1)] /\ statuses (trace s') = [SP].
Proof.
  intros Hrun Hrecv.
  pose proof (abort_run _ _ _ _ (abort_boot fl hst script w reqs) Hrun)
    as [Hrv Hm Hsv].
  destruct s as [mn sv hd ww rqs tr]; simpl in *.
  inversion Hsv as [tr0 H1 H2 H3|e k tr0 Hre Hk H1 H2 H3|k tr0 Hre Hk H1 H2 H3
                   |k tr0 Hre Hk H1 H2 H3 H4|q tr0 H1]; subst;
    try (rewrite H2 in Hrecv; discriminate Hrecv); try congruence.
  split; [assumption|]. split; [assumption|].
  destruct hst as [ia eo re rr]; simpl in *; subst re.
  assert (k = 0 \/ k = 1 \/ k = 2 \/ k = 3)%nat as [-> |[-> |[-> | ->]]] by lia.
  - exists 2%nat. eexists. split; [lia|]. split; [reflexivity|]. simpl.
    split; obs_snoc.
  - exists 1%nat. eexists. split; [lia|]. split; [reflexivity|]. simpl.
    split; obs_snoc.
  - exists 0%nat. eexists. split; [lia|]. split; [reflexivity|]. simpl. auto.
  - exists 0%nat. eexists. split; [lia|]. split; [reflexivity|]. simpl. auto.
Qed.

(** C3: [started] runs [initPanicFile] on the file panic.log in
    daemonCli.Config.Root. When that returns nil, its next step is the
    send of [false] on tosvc, and with the receiver it returns nil; when
    it returns an error, [started] returns that error at once: nothing
    is sent, trace and channels are as before. *)
Theorem started_spec (s : system) (k : option error -> prog unit)
  (err : option error) (w' : world) :
  main s = (e ← started; k e) ->
  initPanicFile (filepathJoin (ConfigRoot (w s)) "panic.log") (w s) = (err, w') ->
  exists s1,
    step Main s = Some s1 /\ w s1 = w' /\ trace s1 = trace s /\
    hdl s1 = hdl s /\ svc s1 = svc s /\
    match err with
    | Some e => main s1 = k (Some e)
    | None =>
      main s1 = SendTosvc false (k None) /\
      forall h kq,
        hdl s = Some h -> empty h = true -> svc s = Some (RecvTosvc kq) ->
        exists s2,
          step Meet s1 = Some s2 /\ main s2 = k None /\
          svc s2 = Some (kq false) /\ trace s2 = trace s ++ [EvTosvc false]
    end.
Proof.
  intros Hm Hi. destruct s as [mn sv hd ww rqs tr]; simpl in *. subst mn.
  unfold step, started, sys; simpl.
  change ((gets ConfigRoot
            ≫= λ root : string, initPanicFile (filepathJoin root "panic.log")) ww)
    with (initPanicFile (filepathJoin (ConfigRoot ww) "panic.log") ww).
  rewrite Hi. simpl.
  eexists. split; [reflexivity|]. simpl. repeat split.
  destruct err as [e|]; simpl; [reflexivity|]. split; [reflexivity|].
  intros h kq -> He ->. unfold step; simpl. rewrite He. simpl.
  eexists. split; [reflexivity|]. simpl. auto.
Qed.

(** C9: the two channels of the handler are made without a buffer and
    stay empty in every run, so that a goroutine at a send on one of them
    has no step of its own: a value passes only in a step in which the
    send meets the receive of the other goroutine, and the trace has no
    buffered send or receive. In a run of begin, started and stopped
    the values pass in the order of the handshake (from the handler),
    the confirmation of started, the confirmation of stopped (both to
    the handler) and the last word of the handler. *)
Theorem channels_rendezvous :
  (forall fl hst script w reqs ms s,
     run ms (boot fl hst script w reqs) = Some s ->
     (forall h, hdl s = Some h -> wellmade h) /\
     (atSend (main s) -> step Main s = None) /\
     (forall q, svc s = Some q -> atSend q -> step Svc s = None) /\
     Forall silent (trace s)) /\
  (forall name hst err w reqs ms s,
     run ms (boot (runFlags name) hst [CallStarted; CallStopped err] w reqs)
       = Some s ->
     beginResults (trace s) = [(false, None)] ->
     startedResults (trace s) = [None] ->
     passed (trace s) `prefix_of` handshakes hst err).
Proof.
  split.
  - intros fl hst script w reqs ms s Hrun.
    pose proof (rendezvous_run _ _ _ (rendezvous_boot fl hst script w reqs) Hrun)
      as [Hm Hs Hh Ht].
    split; [exact Hh|]. split; [|split; [|exact Ht]].
    + intros Hat. unfold step. destruct s as [mn sv hd ww rqs tr]; simpl in *.
      destruct mn; try contradiction; simpl;
        (destruct hd as [h|]; [|reflexivity]); simpl;
        destruct (wellmade_blocks h (Hh h eq_refl)) as (B1 & B2 & _);
        now rewrite ?B1, ?B2.
    + intros q Hq Hat. unfold step. destruct s as [mn sv hd ww rqs tr]; simpl in *.
      subst sv. simpl.
      destruct q; try contradiction; simpl;
        (destruct hd as [h|]; [|reflexivity]); simpl;
        destruct (wellmade_blocks h (Hh h eq_refl)) as (B1 & B2 & _);
        now rewrite ?B1, ?B2.
  - intros name hst err w reqs ms s Hrun Hb Hst.
    now destruct (service_run _ _ _ _ _ _ _ Hrun Hb Hst).
Qed.

Lemma channels_rendezvous_witness :
  let s := final (take 10 moves_plain)
                 (boot flags_run host_service script_ok world_old []) in
  let s' := final moves_plain
                  (boot flags_run host_service script_ok world_old []) in
  hdl s = Some h0 /\ step Main s = None /\
  passed (trace s') `prefix_of` handshakes host_service None.
Proof.
  destruct channels_rendezvous as [H1 H2].
  destruct (H1 flags_run host_service script_ok world_old [] (take 10 moves_plain)
              (final (take 10 moves_plain)
                     (boot flags_run host_service script_ok world_old []))
              ltac:(vm_compute; reflexivity)) as (_ & Hsend & _).
  split; [vm_compute; reflexivity|]. split; [apply Hsend; vm_compute; exact I|].
  pose proof (H2 "docker" host_service None world_old [] moves_plain
                (final moves_plain
                       (boot flags_run host_service script_ok world_old []))
                ltac:(vm_compute; reflexivity) ltac:(vm_compute; reflexivity)
                ltac:(vm_compute; reflexivity)) as Hp.
  exact Hp.
Defined.

(** C2 as the specification has it fails. When the daemon calls
    stopped with an error before it has called started, the boolean that
    Execute receives is [true] and Execute returns (true, 1): stopped is
    called on this path, started is not. And when started fails and
    nothing else is called, nothing is sent on tosvc: Execute has not
    returned and no goroutine can take a step. *)
Lemma Execute_aborts_after_stopped :
  let s := final moves_abort
                 (boot flags_run host_service script_abort world_old []) in
  let s' := final moves_denied
                  (boot flags_run host_service [CallStarted] world_denied []) in
  (run moves_abort (boot flags_run host_service script_abort world_old [])
     = Some s /\
   hd_error (received (trace s)) = Some true /\
   exits (trace s) = [(true, 1)] /\
   startedResults (trace s) = [] /\
   stoppedCalls (trace s) = [Some "boom"]) /\
  (run moves_denied (boot flags_run host_service [CallStarted] world_denied [])
     = Some s' /\
   startedResults (trace s') = [Some "Access is denied."] /\
   received (trace s') = [] /\ exits (trace s') = [] /\
   forall m, step m s' = None).
Proof.
  split.
  - vm_compute. repeat split.
  - split; [vm_compute; reflexivity|]. split; [vm_compute; reflexivity|].
    split; [vm_compute; reflexivity|]. split; [vm_compute; reflexivity|].
    intros []; vm_compute; reflexivity.
Qed.

Lemma Execute_aborts_witness :
  let s := final (take 11 moves_abort)
                 (boot flags_run host_service script_abort world_old []) in
  statuses (trace s) = [SP] /\
  (exists e, In (EvNote (Calls (CallStopped (Some e)))) (trace s)) /\
  exists n s', (n <= 2)%nat /\ run (repeat Svc n) s = Some s' /\
               exits (trace s') = [(true, 1)] /\ statuses (trace s') = [SP].
Proof.
  apply (Execute_aborts flags_run host_service script_abort world_old []
           (take 11 moves_abort)); vm_compute; reflexivity.
Defined.

Lemma started_spec_witness :
  (exists s1,
     step Main (at_started world_old) = Some s1 /\
     main s1 = SendTosvc false (tell (StartedReturned None)) /\
     exists s2, step Meet s1 = Some s2 /\ trace s2 = [EvTosvc false] /\
                main s2 = tell (StartedReturned None)) /\
  (exists s1,
     step Main (at_started world_denied) = Some s1 /\
     main s1 = tell (StartedReturned (Some "Access is denied.")) /\
     trace s1 = [] /\ hdl s1 = Some h0).
Proof.
  split.
  - destruct (started_spec (at_started world_old)
                (fun e => tell (StartedReturned e)) None
                (initPanicFile (filepathJoin "C:\docker" "panic.log") world_old).2
                eq_refl ltac:(vm_compute; reflexivity))
      as (s1 & H1 & _ & _ & _ & _ & H2 & H3).
    exists s1. split; [exact H1|]. split; [exact H2|].
    destruct (H3 h0 (fun _ => Ret tt) eq_refl eq_refl eq_refl)
      as (s2 & A & B & _ & D).
    exists s2. auto.
  - destruct (started_spec (at_started world_denied)
                (fun e => tell (StartedReturned e)) (Some "Access is denied.")
                (initPanicFile (filepathJoin "C:\docker" "panic.log") world_denied).2
                eq_refl ltac:(vm_compute; reflexivity))
      as (s1 & H1 & _ & Ht & Hh & _ & H2).
    exists s1. auto.
Defined.

End ServiceFacts.

(** * Facts about the entry point *)

Module InitServiceFacts.
Import OS Service System Points ServiceFacts.











End InitServiceFacts.

(** * More facts about the event-log hook *)

Module HookFacts.
Import EventLog EventLogFacts Outcomes.

Section Hook.

Context {Value : Type} (Sprint : Value -> string).
Context (hostReportEvent : EventRecord -> option error).

Local Abbreviation Fire := (Fire Sprint hostReportEvent).
Local Abbreviation extension := (extension Sprint).
Local Abbreviation strings := (strings Sprint).

Lemma extend_spec (data : list (string * Value)) (l : Level) (etype eid : Z) :
  levelEvent l = Some (etype, eid) ->
  extend Sprint data eid = (extension data, identifier data eid).
Proof.
  intros Hlev. pose proof (levelEvent_eid _ _ _ Hlev) as Heid.
  destruct data as [|kv rest]; [reflexivity|].
  now rewrite extend_fields.
Qed.

Lemma hasNul_not_empty (s : string) : hasNul s = true -> String.eqb s "" = false.
Proof. destruct s; [discriminate | reflexivity]. Qed.

(** X1: the levels that [Levels] registers the hook for are the levels
    that the switch of [Fire] knows: [Fire] gives up with the error
    unknown level, doing nothing, on the entries of the other levels and
    on no entry of these six, whatever the hook, the message and the
    fields are. *)
Theorem Fire_levels (h : etwHook) (e : Entry) :
  In (EntryLevel e) Levels <-> Fire h e <> (Some "unknown level", []).
Proof.
  split.
  - intros [[etype eid] Hlev]%levelEvent_known.
    unfold EventLog.Fire. rewrite Hlev.
    destruct (extend Sprint (Data e) eid) as [exts eid'].
    destruct (log h) as [handle|]; [|discriminate].
    unfold UTF16PtrFromString.
    destruct (hasNul (Message e)); [discriminate|].
    destruct (String.eqb exts ""); [discriminate|].
    destruct (hasNul exts); discriminate.
  - intros Hne.
    destruct (levelEvent (EntryLevel e)) as [p|] eqn:Hlev.
    + apply levelEvent_known. eauto.
    + exfalso. apply Hne. unfold EventLog.Fire. now rewrite Hlev.
Qed.

(** X2: with a log handle, an entry of a known level whose message or
    whose string of fields has a NUL byte makes [Fire] return the error
    of [syscall.UTF16PtrFromString], invalid argument; no record is
    submitted and nothing is written. *)
Theorem Fire_nul (h : etwHook) (e : Entry) (handle : Z) :
  In (EntryLevel e) Levels -> log h = Some handle ->
  hasNul (Message e) = true \/ hasNul (extension (Data e)) = true ->
  Fire h e = (Some EINVAL, []).
Proof.
  intros [[etype eid] Hlev]%levelEvent_known Hlog Hnul.
  unfold EventLog.Fire. rewrite Hlev, (extend_spec _ _ _ _ Hlev), Hlog.
  unfold UTF16PtrFromString.
  destruct (hasNul (Message e)) eqn:Hm; [reflexivity|].
  destruct Hnul as [Hn|Hn]; [discriminate|].
  now rewrite (hasNul_not_empty _ Hn), Hn.
Qed.

(** X3: whatever the entry, a record that [Fire] submits is the only
    thing it does and its result is the host's answer to it. The record
    goes to the hook's handle with category 0, no user and no binary
    data; its type is that of the level and its identifier the level's
    (1 to 4) or that plus 10 (11 to 14); it has one or two strings, as
    counted in the call, the message first, and none has a NUL byte. *)
Theorem Fire_submits (h : etwHook) (e : Entry) (r : EventRecord) :
  In (ReportEvent r) (Fire h e).2 ->
  Fire h e = (hostReportEvent r, [ReportEvent r]) /\
  log h = Some (evHandle r) /\
  evCategory r = 0 /\ evUserSid r = 0 /\ evDataSize r = 0 /\
  (exists etype eid, levelEvent (EntryLevel e) = Some (etype, eid) /\
     evType r = etype /\ evID r = identifier (Data e) eid /\
     (1 <= evID r <= 4 \/ 11 <= evID r <= 14)) /\
  submitted r = strings (Message e) (Data e) /\
  evNumStrings r = Z.of_nat (length (submitted r)) /\
  Forall (fun s => exists x, s = Some x /\ hasNul x = false) (submitted r).
Proof.
  unfold EventLog.Fire.
  destruct (levelEvent (EntryLevel e)) as [[etype eid]|] eqn:Hlev; [|intros []].
  rewrite (extend_spec _ _ _ _ Hlev).
  pose proof (levelEvent_eid _ _ _ Hlev) as Heid.
  destruct (log h) as [handle|]; [|intros [H|[]]; discriminate H].
  unfold UTF16PtrFromString.
  destruct (hasNul (Message e)) eqn:Hm; [intros []|].
  destruct (Data e) as [|kv rest] eqn:Hd.
  - simpl. intros [[= <-]|[]]. simpl.
    repeat split; try reflexivity.
    + exists etype, eid. repeat split; auto.
    + repeat constructor. eauto.
  - unfold extension, identifier, strings.
    rewrite joinFields_not_empty by discriminate.
    destruct (hasNul (joinFields Sprint (kv :: rest))) eqn:Hx; [intros []|].
    intros [[= <-]|[]]. simpl.
    repeat split; try reflexivity.
    + exists etype, eid. repeat split; auto. unfold eventExtraOffset. lia.
    + repeat constructor; eauto.
Qed.

End Hook.

Local Abbreviation FireS := (EventLog.Fire (fun v : string => v) (fun _ => None)).

Lemma Fire_nul_witness :
  FireS {| log := Some 7 |} entry_nul = (Some "invalid argument", []).
Proof.
  apply (Fire_nul (fun v : string => v) (fun _ => None)
           {| log := Some 7 |} entry_nul 7).
  - unfold Levels. simpl. auto.
  - reflexivity.
  - left. reflexivity.
Defined.

Lemma Fire_submits_witness :
  FireS {| log := Some 7 |} entry_a1 = (None, [ReportEvent record_a1]) /\
  submitted record_a1 = [Some "m"; Some "a=1"] /\
  evNumStrings record_a1 = 2.
Proof.
  destruct (Fire_submits (fun v : string => v) (fun _ => None)
              {| log := Some 7 |} entry_a1 record_a1 (or_introl eq_refl))
    as (H1 & _ & _ & _ & _ & _ & H2 & H3 & _).
  split; [exact H1|]. split; [exact H2|]. rewrite H3, H2. reflexivity.
Defined.

End HookFacts.

(** * Facts about registration *)

Module RegistrationFacts.
Import OS Service Outcomes.

Lemma keepArg_spec (a : string) :
  keepArg a = true <-> a <> "--register-service" /\ a <> "--unregister-service".
Proof.
  unfold keepArg. rewrite andb_true_iff, !negb_true_iff, !String.eqb_neq. tauto.
Qed.

(** The answers of the host, call by call, on a world taken apart. *)
Ltac host_answers :=
  unfold newCalls, hostcall, fresh, mbind, M_bind, mret, M_ret, gets, modify;
  simpl;
  repeat match goal with
         | |- context [match ?l with [] => _ | _ :: _ => _ end] =>
           is_var l; destruct l as [|[?|] ?]; simpl
         end;
  rewrite <- ?app_assoc, ?drop_app_length; simpl.

Ltac pick_path :=
  first [ left; split; [reflexivity | eauto]
        | right; left; eexists; split; [reflexivity | eauto]
        | right; right; left; eexists; split; [reflexivity | eauto]
        | right; right; right; left; do 3 eexists; split; [reflexivity | eauto]
        | right; right; right; right; do 4 eexists; reflexivity ].

(** The one call of [CreateService] that [registerService] makes. *)
Lemma registerService_create (name : string) (w : world) (m : Z) (n p : string)
  (a : list string) :
  In (CCreateService m n p a) (newCalls w (registerService name w).2) ->
  n = name /\
  a = "--run-service" :: filter (fun a => keepArg a = true) (tail (Args w)).
Proof.
  destruct w as [fi ha nf se fa ca os pf cr ar].
  unfold registerService, getServicePath. host_answers.
  all: intros Hin;
    repeat (destruct Hin as [Hin|Hin]; [try discriminate Hin|]);
    try contradiction; injection Hin as <- <- <- <-; auto.
Qed.

(** X4: [registerService] returns the first error among those of
    LookPath, Abs, mgr.Connect, CreateService and eventlog.Install, and
    nil when none of the five fails; errors of the deferred Close and
    Disconnect are dropped. It stops at the first failure, and the
    deferred calls run on every path: once the manager is connected and
    CreateService has been tried, Disconnect is the last call, and once
    the service is created it is closed before that; the event source
    is installed with the service name, the path of the service and the
    levels Info, Warning and Error (7). *)
Theorem registerService_paths (name : string) (w : world) :
  let r := (registerService name w).1 in
  let l := newCalls w (registerService name w).2 in
  let arg0 := hd "" (Args w) in
  let args := "--run-service" :: filter (fun a => keepArg a = true) (tail (Args w)) in
  r = firstError (take 5 (faults w)) /\
  (l = [CLookPath arg0] /\ is_Some r \/
   (exists p, l = [CLookPath arg0; CAbs p] /\ is_Some r) \/
   (exists p, l = [CLookPath arg0; CAbs p; CMgrConnect] /\ is_Some r) \/
   (exists p p' m,
      l = [CLookPath arg0; CAbs p; CMgrConnect; CCreateService m name p' args;
           CMgrDisconnect m] /\ is_Some r) \/
   (exists p p' m s,
      l = [CLookPath arg0; CAbs p; CMgrConnect; CCreateService m name p' args;
           CEventlogInstall name p' false 7; CServiceClose s; CMgrDisconnect m])).
Proof.
  destruct w as [fi ha nf se fa ca os pf cr ar].
  unfold registerService, getServicePath. host_answers.
  all: split; [reflexivity|].
  all: pick_path.
Qed.

(** X5: the command line that [registerService] registers the service
    with is --run-service followed by the arguments of the process after
    its name, as they are, in their order and with their repetitions,
    except that every --register-service and --unregister-service is
    left out; no other argument is dropped and none is added, and the
    service has the name of the flag. *)
Theorem registerService_args (name : string) (w : world) (m : Z) (n p : string)
  (a : list string) :
  In (CCreateService m n p a) (newCalls w (registerService name w).2) ->
  n = name /\
  a = "--run-service"
        :: filter (fun x => x <> "--register-service" /\
                            x <> "--unregister-service") (tail (Args w)) /\
  hd_error a = Some "--run-service" /\
  ~ In "--register-service" a /\ ~ In "--unregister-service" a /\
  tail a `sublist_of` tail (Args w) /\
  forall x, In x (tail (Args w)) ->
    x <> "--register-service" -> x <> "--unregister-service" -> In x (tail a).
Proof.
  intros [-> ->]%registerService_create. simpl.
  split; [reflexivity|]. split.
  { f_equal. apply list_filter_iff. intros x. apply keepArg_spec. }
  split; [reflexivity|].
  split; [|split; [|split]].
  - intros [H|H]; [discriminate H|].
    apply list_elem_of_In, list_elem_of_filter in H as [H _].
    apply keepArg_spec in H. tauto.
  - intros [H|H]; [discriminate H|].
    apply list_elem_of_In, list_elem_of_filter in H as [H _].
    apply keepArg_spec in H. tauto.
  - apply sublist_filter.
  - intros x Hx H1 H2. apply list_elem_of_In, list_elem_of_filter.
    split; [now apply keepArg_spec | now apply list_elem_of_In].
Qed.

Lemma registerService_args_witness :
  let a := ["--run-service"; "-D"; "-D"; "--service-name"; "docker2"] in
  In (CCreateService 100 "docker2" "dockerd.exe" a)
     (newCalls world_register (registerService "docker2" world_register).2) /\
  a = "--run-service"
        :: filter (fun x => x <> "--register-service" /\
                            x <> "--unregister-service")
                  (tail (Args world_register)) /\
  ~ In "--register-service" a /\ ~ In "--unregister-service" a.
Proof.
  assert (Hin : In (CCreateService 100 "docker2" "dockerd.exe"
                      ["--run-service"; "-D"; "-D"; "--service-name"; "docker2"])
                   (newCalls world_register
                             (registerService "docker2" world_register).2)).
  { vm_compute. auto. }
  split; [exact Hin|].
  destruct (registerService_args "docker2" world_register 100 "docker2"
              "dockerd.exe"
              ["--run-service"; "-D"; "-D"; "--service-name"; "docker2"] Hin)
    as (_ & H0 & _ & H1 & H2 & _).
  split; [exact H0|]. split; [exact H1 | exact H2].
Defined.

(** X6: [unregisterService] returns the error of mgr.Connect, of
    OpenService or of Delete, the first of them that fails, and nil
    otherwise. An error of eventlog.Remove is dropped: the service is
    deleted all the same. Once the service is open it is closed and the
    manager disconnected on every path, in this order; when OpenService
    fails the manager is disconnected and nothing is removed. *)
Theorem unregisterService_paths (name : string) (w : world) :
  let r := (unregisterService name w).1 in
  let l := newCalls w (unregisterService name w).2 in
  r = firstError (take 2 (faults w) ++ take 1 (drop 3 (faults w))) /\
  (l = [CMgrConnect] /\ is_Some r \/
   (exists m, l = [CMgrConnect; COpenService m name; CMgrDisconnect m] /\
              is_Some r) \/
   (exists m s,
      l = [CMgrConnect; COpenService m name; CEventlogRemove name;
           CServiceDelete s; CServiceClose s; CMgrDisconnect m])).
Proof.
  destruct w as [fi ha nf se fa ca os pf cr ar].
  unfold unregisterService. host_answers.
  all: split; [reflexivity|].
  all: first [ left; split; [reflexivity | eauto]
             | right; left; eexists; split; [reflexivity | eauto]
             | right; right; do 2 eexists; reflexivity ].
Qed.

End RegistrationFacts.

(** * The panic file from installation to removal *)

Module PanicFileCycle.
Import OS PanicFile PanicFileFacts Outcomes.

Ltac run_host :=
  unfold initPanicFile, removePanicFile, redirectStderr, Create, OpenFile, Stat,
    Close, Rename, Remove, GetStdHandle, setStdHandleCall, hostcall, mbind,
    M_bind, mret, M_ret, modify, gets; simpl.

Lemma redirectStderr_error w e w' :
  redirectStderr w = (Some e, w') -> stdErr w' = stdErr w.
Proof.
  unfold redirectStderr, GetStdHandle, setStdHandleCall, hostcall, mbind, M_bind.
  simpl. destruct (faults w) as [|[e1|] [|[e2|] fs]]; simpl; unfold mret, M_ret;
    intros [= <- <-]; reflexivity.
Qed.

(** X7: whatever the host refuses, an installation that returns an
    error has not redirected the standard error handle: it is the one
    of before the call. *)
Theorem initPanicFile_error (path : string) (w : world) (e : error) (w' : world) :
  initPanicFile path w = (Some e, w') -> stdErr w' = stdErr w.
Proof.
  unfold initPanicFile, mbind, M_bind, mret, M_ret, modify.
  destruct (OpenFile _ _ _ w) as [[f|e0] w1] eqn:HO; cbv beta iota zeta.
  2:{ intros [= <- <-]. apply OpenFile_quietly in HO as (Hs & _). exact Hs. }
  apply OpenFile_quietly in HO. destruct HO as (Hs1 & _ & l1 & Hl1).
  destruct (Stat _ _) as [[size|e0] w2] eqn:HS; cbv beta iota zeta.
  2:{ intros [= <- <-]. apply Stat_quietly, quietly_set_panicFile in HS.
      destruct HS as (Hs2 & _). congruence. }
  apply Stat_quietly, quietly_set_panicFile in HS.
  destruct HS as (Hs2 & Hp2 & l2 & Hl2).
  destruct (0 <? size).
  - destruct (Close _ _) as [r3 w3] eqn:HC.
    apply Close_quietly in HC. destruct HC as (Hs3 & _ & l3 & Hl3).
    destruct (Rename _ _ _) as [r4 w4] eqn:HR.
    apply Rename_quietly in HR. destruct HR as (Hs4 & _ & l4 & Hl4).
    destruct (Create _ _) as [[f'|e0] w5] eqn:HCr.
    + apply OpenFile_quietly in HCr. destruct HCr as (Hs5 & _ & l5 & Hl5).
      intros H%redirectStderr_error. simpl in H. congruence.
    + apply OpenFile_quietly in HCr. destruct HCr as (Hs5 & _ & l5 & Hl5).
      intros [= <- <-]. simpl. congruence.
  - intros H%redirectStderr_error. congruence.
Qed.

Lemma initPanicFile_error_witness :
  exists w', initPanicFile Examples.panicPath Examples.world_denied
             = (Some "Access is denied.", w') /\
             stdErr w' = 3.
Proof.
  eexists. split; [vm_compute; reflexivity|].
  apply (initPanicFile_error Examples.panicPath Examples.world_denied
           "Access is denied."). vm_compute. reflexivity.
Defined.

(** X8: on a host that refuses no call, [initPanicFile] on a path with
    no file or with an empty one makes four calls, OpenFile, Stat,
    GetStdHandle and SetStdHandle: the file is not closed, renamed or
    made anew, and no other file is touched (a [path.old] of an
    earlier run stays). The file is there and empty, it is the panic
    file, the old standard error handle is saved and the new one is
    the file's. *)
Theorem initPanicFile_fresh (path : string) (w : world) :
  files w !! path = None \/ files w !! path = Some "" ->
  faults w = [] ->
  exists w',
    initPanicFile path w = (None, w') /\
    calls w' = calls w ++
      [COpenFile path (Z.lor O_CREATE (Z.lor O_WRONLY O_APPEND)) 0;
       CStat (nextFd w);
       CGetStdHandle STD_ERROR_HANDLE;
       CSetStdHandle STD_ERROR_HANDLE (nextFd w)] /\
    files w' = <[path := ""]> (files w) /\
    handles w' = <[nextFd w := path]> (handles w) /\
    panicFile w' = Some {| Fd := nextFd w; Name := path |} /\
    oldStderr w' = stdErr w /\ stdErr w' = nextFd w.
Proof.
  destruct w as [fi ha nf se fa ca os pf cr ar]. simpl.
  intros Hf ->. run_host.
  destruct Hf as [-> | ->]; simpl.
  all: rewrite !lookup_insert_eq; simpl.
  all: eexists; split; [reflexivity|]; simpl.
  all: rewrite <- !app_assoc; simpl; repeat split; reflexivity.
Qed.

Lemma initPanicFile_fresh_witness :
  exists w',
    initPanicFile Examples.panicPath world_register = (None, w') /\
    files w' = {[ Examples.panicPath := "" ]} /\
    oldStderr w' = 3 /\ stdErr w' = 100.
Proof.
  destruct (initPanicFile_fresh Examples.panicPath world_register
              (or_introl eq_refl) eq_refl)
    as (w' & H1 & _ & H2 & _ & _ & H3 & H4).
  exists w'. split; [exact H1|]. split; [exact H2|]. split; [exact H3 | exact H4].
Defined.

(** On a host that refuses no call, [removePanicFile] on an empty panic
    file restores the saved handle, closes the file and removes it. *)
Lemma removePanicFile_empty (w : world) (f : File) :
  panicFile w = Some f -> handles w !! Fd f = Some (Name f) ->
  files w !! Name f = Some "" -> faults w = [] ->
  exists w2,
    removePanicFile w = (tt, w2) /\
    stdErr w2 = oldStderr w /\
    files w2 = delete (Name f) (files w) /\
    handles w2 = delete (Fd f) (handles w).
Proof.
  destruct w as [fi ha nf se fa ca os pf cr ar]. simpl.
  intros -> Hh Hf ->. run_host. rewrite Hh, Hf. simpl.
  rewrite Hh. simpl. rewrite Hf. simpl.
  eexists. split; [reflexivity|]. simpl. auto.
Qed.

(** On a host that refuses no call, [initPanicFile] succeeds and leaves
    an empty panic file open at [path]. *)
Lemma initPanicFile_installed (path : string) (w : world) :
  faults w = [] ->
  exists w1 f,
    initPanicFile path w = (None, w1) /\
    faults w1 = [] /\ panicFile w1 = Some f /\ Name f = path /\
    handles w1 !! Fd f = Some path /\ files w1 !! path = Some "" /\
    oldStderr w1 = stdErr w /\ stdErr w1 = Fd f /\
    (forall c, files w !! path = Some c -> c <> "" ->
       files w1 !! (path +:+ ".old") = Some c) /\
    (files w !! path = None \/ files w !! path = Some "" ->
       files w1 !! (path +:+ ".old") = files w !! (path +:+ ".old")) /\
    (forall q, q <> path -> q <> path +:+ ".old" ->
       files w1 !! q = files w !! q) /\
    (forall fd p, fd <> Fd f -> handles w1 !! fd = Some p ->
       handles w !! fd = Some p).
Proof.
  pose proof (old_path_ne path) as Hne.
  destruct w as [fi ha nf se fa ca os pf cr ar]. simpl.
  intros ->. run_host.
  destruct (fi !! path) as [[|a c]|] eqn:Hf; simpl.
  all: rewrite ?lookup_insert_eq; simpl.
  all: rewrite ?lookup_insert_eq; simpl.
  all: rewrite ?lookup_insert_eq; simpl.
  all: try match goal with
       | |- context [match ?x with Some _ => _ | None => _ end] => destruct x
       end; simpl.
  all: do 2 eexists; (split; [reflexivity|]); simpl.
  all: split; [reflexivity|]; split; [reflexivity|]; simpl.
  all: split; [reflexivity|]; split; [apply lookup_insert_eq|].
  all: split; [apply lookup_insert_eq|].
  all: split; [reflexivity|]; split; [reflexivity|].
  all: assert (Hfd : nf <> nf + 1) by lia.
  all: split; [intros c0 [= <-] Hc0; try congruence;
               rewrite lookup_insert_ne by congruence; apply lookup_insert_eq|].
  all: split; [intros [H|H]; try discriminate H;
               now rewrite lookup_insert_ne by congruence|].
  all: split; [intros q Hq1 Hq2;
               rewrite ?(lookup_insert_ne _ _ q) by congruence;
               rewrite ?(lookup_delete_ne _ _ q) by congruence;
               rewrite ?(lookup_insert_ne _ _ q) by congruence; reflexivity|].
  all: intros fd p Hfd1; rewrite lookup_insert_ne by congruence; try tauto.
  all: destruct (decide (fd = nf)) as [->|Hfd2];
         [now rewrite lookup_delete_eq
         |rewrite lookup_delete_ne, lookup_insert_ne by congruence; tauto].
Qed.

(** X9: on a host that refuses no call, [initPanicFile] followed by
    [removePanicFile], with nothing written to the panic file between
    the two, undoes the redirection: the installation returns nil, the
    standard error handle is the one of before, there is no file at
    [path] and no handle is open that was not open before. A content
    that was at [path] before is kept at [path.old]; with none there,
    [path.old] is as before, and so is every other file. *)
Theorem panicFile_round_trip (path : string) (w : world) :
  faults w = [] ->
  exists w1 w2,
    initPanicFile path w = (None, w1) /\
    removePanicFile w1 = (tt, w2) /\
    stdErr w2 = stdErr w /\
    files w2 !! path = None /\
    (forall c, files w !! path = Some c -> c <> "" ->
       files w2 !! (path +:+ ".old") = Some c) /\
    (files w !! path = None \/ files w !! path = Some "" ->
       files w2 !! (path +:+ ".old") = files w !! (path +:+ ".old")) /\
    (forall q, q <> path -> q <> path +:+ ".old" ->
       files w2 !! q = files w !! q) /\
    (forall fd p, handles w2 !! fd = Some p -> handles w !! fd = Some p).
Proof.
  intros Hq. pose proof (old_path_ne path) as Hne.
  destruct (initPanicFile_installed path w Hq)
    as (w1 & f & Hi & F1 & P1 & N1 & H1 & E1 & O1 & S1 & A1 & B1 & C1 & D1).
  destruct (removePanicFile_empty w1 f P1) as (w2 & Hr & S2 & F2 & H2);
    [now rewrite N1 | now rewrite N1 | assumption |].
  exists w1, w2. split; [exact Hi|]. split; [exact Hr|].
  rewrite F2, H2, N1.
  split; [congruence|]. split; [apply lookup_delete_eq|].
  split; [intros c Hc Hc'; rewrite lookup_delete_ne by congruence; eauto|].
  split; [intros H; rewrite lookup_delete_ne by congruence; eauto|].
  split; [intros q Hq1 Hq2; rewrite lookup_delete_ne by congruence; eauto|].
  intros fd p. destruct (decide (fd = Fd f)) as [->|Hfd].
  - now rewrite lookup_delete_eq.
  - rewrite lookup_delete_ne by congruence. now apply D1.
Qed.

Lemma panicFile_round_trip_witness :
  exists w1 w2,
    initPanicFile Examples.panicPath Examples.world_old = (None, w1) /\
    removePanicFile w1 = (tt, w2) /\
    stdErr w2 = 3 /\ files w2 !! Examples.panicPath = None /\
    files w2 !! (Examples.panicPath +:+ ".old") = Some "panic: boom".
Proof.
  destruct (panicFile_round_trip Examples.panicPath Examples.world_old eq_refl)
    as (w1 & w2 & H1 & H2 & H3 & H4 & H5 & _).
  exists w1, w2. split; [exact H1|]. split; [exact H2|].
  split; [exact H3|]. split; [exact H4|].
  apply H5; [reflexivity | discriminate].
Defined.

End PanicFileCycle.

(** * More facts about the service run *)

Module RunFacts.
Import OS PanicFile Service System Points ServiceFacts Outcomes Examples.

Lemma received_passed tr : received tr = received (passed tr).
Proof.
  induction tr as [|[n|st|c|b|e| |] tr IH]; simpl; congruence.
Qed.

(** One step of a run. *)
Ltac forward :=
  erewrite run_cons;
  [| unfold step; simpl;
     unfold set_main, set_svc, set_hdl, set_w, set_requests, emit; simpl;
     reflexivity ].

(** All the runs of a process in which begin cannot succeed. *)
Ltac explore_with H tac :=
  match type of H with
  | run ?ms _ = Some _ =>
    destruct ms as [|[] ms]; simpl in H; try discriminate H;
    [ injection H as <-; simpl; tac
    | try (unfold set_main, set_svc, set_hdl, set_w, set_requests, emit in H;
           simpl in H; explore_with H tac) .. ]
  end.

Ltac begin_failed :=
  repeat match goal with
         | |- _ /\ _ => split
         | |- is_Some None -> _ => intros [? [=]]
         | |- ~ _ => intro
         | |- _ -> _ => intro
         | |- forall _, _ => intro
         end;
  first [ reflexivity | left; reflexivity | right; reflexivity | contradiction
        | match goal with H : _ \/ _ |- _ => intuition discriminate end ].

(** X10: with the run-service flag, when [svc.IsAnInteractiveSession]
    or [eventlog.Open] fails, or [Run] fails before it calls the
    handler, [initService] returns false and that error, in every run
    and whatever the daemon would do next: nothing else is returned,
    Execute reports no status, nothing passes on tosvc and neither
    [started] nor [stopped] is called. When the set-up fails, the
    goroutine is not started and no hook is added. And begin does
    return: the goroutine hands the error of [Run] over fromsvc. *)
Theorem initService_fails name hst script w reqs e :
  beginError hst = Some e ->
  (forall ms s,
     run ms (boot (runFlags name) hst script w reqs) = Some s ->
     (beginResults (trace s) = [] \/ beginResults (trace s) = [(false, Some e)]) /\
     statuses (trace s) = [] /\ received (trace s) = [] /\
     (forall c, ~ In (EvNote (Calls c)) (trace s)) /\
     (is_Some (setupError hst) ->
      svc s = None /\ forall l, ~ In (EvNote (AddHook l)) (trace s))) /\
  (exists ms s,
     run ms (boot (runFlags name) hst script w reqs) = Some s /\
     beginResults (trace s) = [(false, Some e)] /\ main s = Ret tt).
Proof.
  unfold beginError, setupError.
  destruct hst as [[[|]|e0] [l|e1] [e2|] rr]; simpl; intros [= <-].
  all: split;
    [ intros ms s H; unfold boot, daemonMain in H; simpl in H;
      explore_with H begin_failed
    | ].
  all: unfold boot, daemonMain; simpl.
  all: first
    [ exists [Main]; eexists; split;
      [forward; reflexivity | split; reflexivity]
    | exists [Main; Main]; eexists; split;
      [do 2 forward; reflexivity | split; reflexivity]
    | exists [Main; Main; Main; Main; Main; Meet; Main]; eexists; split;
      [do 7 forward; reflexivity | split; reflexivity] ].
Qed.

Lemma initService_fails_witness :
  let e := "The service process could not connect to the service controller." in
  let s := final [Main; Main; Main; Main; Main; Meet; Main]
                 (boot flags_run host_norun script_ok world_old []) in
  beginResults (trace s) = [(false, Some e)] /\ statuses (trace s) = [] /\
  exists ms s',
    run ms (boot flags_run host_norun script_ok world_old []) = Some s' /\
    beginResults (trace s') = [(false, Some e)] /\ main s' = Ret tt.
Proof.
  destruct (initService_fails "docker" host_norun script_ok world_old []
              "The service process could not connect to the service controller."
              eq_refl) as [H1 H2].
  split; [vm_compute; reflexivity|].
  split; [|exact H2].
  apply (H1 [Main; Main; Main; Main; Main; Meet; Main]). vm_compute. reflexivity.
Defined.



(** X12: in a run of begin, started and stopped(err) in which begin
    and started have succeeded, Execute returns only after it has
    received the value of stopped on tosvc, and then with exit code 1
    for an error and 0 for none: no request of the host, Stop and
    Shutdown included, makes it return. *)
Theorem Execute_returns_after_stopped name hst err w reqs ms s :
  run ms (boot (runFlags name) hst [CallStarted; CallStopped err] w reqs) = Some s ->
  beginResults (trace s) = [(false, None)] ->
  startedResults (trace s) = [None] ->
  exits (trace s) = [] \/
  exits (trace s) = [exitOf (isErr err)] /\ received (trace s) = [false; isErr err].
Proof.
  intros Hrun Hb Hst.
  destruct (serves_dec hst) as [Hs|Hbad].
  2:{ exfalso. apply (begin_fails _ _ _ _ _ _ _ Hbad Hrun). rewrite Hb. now left. }
  pose proof (Inv_run _ _ _ _ _ _ _ Hs (Inv_boot name hst err w reqs) Hrun) as HI.
  rewrite received_passed.
  destruct s as [mn sv hd ww rqs tr]. simpl in *.
  destruct HI as [k Hk Hm Hsv Hh Ho Hr|k Hk Hm Hsv Hh Ho Hr|k Hk Hm Hsv Hh Ho Hr
                 |Hm Hsv Hh Ho Hr|e Hm Hsv Hh Ho|e HP
                 |k q pending sts hs Hk Hm Hsv HD Hh Ho Hsts Hr
                 |k hs Hk Hm Hsv Hh Ho Hr|k hs Hk Hm Hsv Hh Ho Hr];
    simpl in *;
    try (injection Ho as Ho1 Ho2 Ho3 Ho4 Ho5 Ho6); auto.
  - rewrite Hst in HP. destruct HP as [HP|[]]. discriminate HP.
  - rewrite Ho3, Ho4. destruct k as [|[|[|k]]]; auto; lia.
  - rewrite Ho3, Ho4. auto.
Qed.

Lemma Execute_returns_after_stopped_witness :
  let s := final (take 22 moves_stop)
                 (boot flags_run host_service script_ok world_old
                       [interrogate; stop]) in
  handled (trace s) = [interrogate; stop] /\
  map StatusState (statuses (trace s))
    = [StartPending; Running; Running; StopPending] /\
  exits (trace s) = [].
Proof.
  split; [vm_compute; reflexivity|]. split; [vm_compute; reflexivity|].
  destruct (Execute_returns_after_stopped "docker" host_service None world_old
              [interrogate; stop] (take 22 moves_stop)
              (final (take 22 moves_stop)
                     (boot flags_run host_service script_ok world_old
                           [interrogate; stop])))
    as [H|[_ H]].
  - vm_compute. reflexivity.
  - vm_compute. reflexivity.
  - vm_compute. reflexivity.
  - exact H.
  - vm_compute in H. discriminate H.
Defined.

(** X13: in every run of begin, started and stopped(err) with an
    error in which begin and started have succeeded and stopped has
    returned, Execute has reported StartPending, Running and its
    replies to the requests it took, and has returned (true, 1); the
    values that passed are nil to begin, false from started, true from
    stopped and, back to stopped, what [Run] returned for (true, 1).
    Such a run exists whenever the host lets begin succeed and the
    panic file can be installed. *)
Theorem stopped_with_error name hst e w reqs :
  (forall ms s,
     run ms (boot (runFlags name) hst [CallStarted; CallStopped (Some e)] w reqs)
       = Some s ->
     beginResults (trace s) = [(false, None)] ->
     startedResults (trace s) = [None] ->
     main s = Ret tt ->
     statuses (trace s) = SP :: RUN :: flat_map reply (handled (trace s)) /\
     exits (trace s) = [(true, 1)] /\
     passed (trace s) = [EvFromsvc None; EvTosvc false; EvTosvc true;
                         EvFromsvc (runResult hst (true, 1))]) /\
  (serves hst ->
   (initPanicFile (filepathJoin (ConfigRoot w) "panic.log") w).1 = None ->
   exists ms s,
     run ms (boot (runFlags name) hst [CallStarted; CallStopped (Some e)] w reqs)
       = Some s /\
     beginResults (trace s) = [(false, None)] /\
     startedResults (trace s) = [None] /\
     main s = Ret tt).
Proof.
  split.
  - intros ms s Hrun Hb Hst Hm.
    destruct (service_run _ _ _ _ _ _ _ Hrun Hb Hst) as [_ H].
    destruct (H Hm) as (H1 & H2 & H3 & _). auto.
  - intros Hs Hi. exists moves_plain.
    apply service_completes; assumption.
Qed.

Lemma stopped_with_error_witness :
  let s := final moves_plain
                 (boot flags_run host_service
                       [CallStarted; CallStopped (Some "boom")] world_old []) in
  exits (trace s) = [(true, 1)] /\
  map StatusState (statuses (trace s)) = [StartPending; Running] /\
  exists ms s',
    run ms (boot flags_run host_service
                 [CallStarted; CallStopped (Some "boom")] world_old []) = Some s' /\
    beginResults (trace s') = [(false, None)] /\
    startedResults (trace s') = [None] /\
    main s' = Ret tt.
Proof.
  destruct (stopped_with_error "docker" host_service "boom" world_old [])
    as [H1 H2].
  destruct (H1 moves_plain
              (final moves_plain
                     (boot flags_run host_service
                           [CallStarted; CallStopped (Some "boom")] world_old []))
              ltac:(vm_compute; reflexivity) ltac:(vm_compute; reflexivity)
              ltac:(vm_compute; reflexivity) ltac:(vm_compute; reflexivity))
    as (A & B & _).
  split; [exact B|]. split; [vm_compute; reflexivity|].
  apply H2.
  - split; [reflexivity|]. right. split; [reflexivity|]. now exists 7.
  - vm_compute. reflexivity.
Defined.

End RunFacts.
